(** * go-openai: the incremental event-stream reader

    A shallow embedding of [StreamReader] and of its two source variants:
    - [Inline]: src/stream_reader.go, which sniffs the [data: {"error":]
      prefix inside the line loop;
    - [Plain]: src/unnamed/part_000, which has no such branch.

    Go values are modelled as follows.  A [[]byte] is a [list byte]; the
    [uint] counter is an [N] whose increment wraps at [2^64]; a Go [error]
    is an [option error] ([None] is [nil]); a function that mutates the
    receiver returns the new receiver next to its result. *)

From Equations Require Import Equations.
From Stdlib Require Import List Bool Arith NArith Lia.
From Stdlib.Strings Require Import String Byte.
Import ListNotations.

Set Implicit Arguments.

(** ** The parts of Go's library that the reader calls *)

Module GoLib.

Definition bytes := list byte.

Definition lit (s : string) : bytes := list_byte_of_string s.

(** The double quote and the line feed, as one-character strings. *)
Definition dq : string := String (Ascii.ascii_of_nat 34) EmptyString.
Definition lf : string := String (Ascii.ascii_of_nat 10) EmptyString.

Fixpoint bytes_eqb (a b : bytes) : bool :=
  match a, b with
  | [], [] => true
  | x :: a', y :: b' => Byte.eqb x y && bytes_eqb a' b'
  | _, _ => false
  end.

(** [bytes.HasPrefix(s, prefix)]. *)
Fixpoint HasPrefix (s prefix : bytes) {struct prefix} : bool :=
  match prefix, s with
  | [], _ => true
  | p :: prefix', x :: s' => Byte.eqb x p && HasPrefix s' prefix'
  | _ :: _, [] => false
  end.

(** [bytes.TrimPrefix(s, prefix)]: [s] without the leading [prefix], or
    [s] itself when it does not start with it. *)
Definition TrimPrefix (s prefix : bytes) : bytes :=
  if HasPrefix s prefix then skipn (List.length prefix) s else s.

(** The ASCII path of [bytes.TrimSpace]: the bytes Go's [asciiSpace]
    table marks, tab, line feed, vertical tab, form feed, carriage return
    and space.  (On a boundary byte of [0x80] or more Go switches to
    Unicode white space; the stream reader itself is parametric in the
    trimming function, and this one serves the ASCII examples.) *)
Definition asciiSpace (c : byte) : bool :=
  match c with
  | x09 | x0a | x0b | x0c | x0d | x20 => true
  | _ => false
  end.

Fixpoint TrimLeft (s : bytes) : bytes :=
  match s with
  | c :: s' => if asciiSpace c then TrimLeft s' else s
  | [] => []
  end.

Definition TrimSpace_ascii (s : bytes) : bytes :=
  rev (TrimLeft (rev (TrimLeft s))).

(** Go's [uint] on a 64-bit target. *)
Definition uint := N.
Definition uint_modulus : N := 2 ^ 64.
Definition uint_incr (n : uint) : uint := ((n + 1) mod uint_modulus)%N.

Definition nl : byte := x0a.

(** [cut delim s]: the bytes of [s] up to and including the first
    [delim], and what follows it; [None] when [s] holds no [delim]. *)
Fixpoint cut (delim : byte) (s : bytes) : option (bytes * bytes) :=
  match s with
  | [] => None
  | c :: s' =>
      if Byte.eqb c delim then Some ([c], s')
      else match cut delim s' with
           | Some (line, rest) => Some (c :: line, rest)
           | None => None
           end
  end.

End GoLib.
Import GoLib.

(** ** Errors, the line source, the accumulator, the stream session *)

Section Session.

(** [T] is the streamed response type, [APIError] the inner error detail
    of the error envelope. *)
Variables T APIError : Type.

Inductive error : Type :=
| io_EOF
| ErrTooManyEmptyStreamMessages
| Errorf_w (detail : option APIError)
    (* fmt.Errorf("error, %w", respErr.Error) *)
| ErrForeign (msg : string).
    (* any other error a collaborator reports *)

(** Modelled from the spec: the [ErrorResponse] type is declared outside
    src/.  The spec calls it the Terminal Error Envelope, a value that
    "wraps an inner error detail if decodable": the detail may be absent. *)
Record ErrorResponse : Type := { Error : option APIError }.

(** The line source: a [bufio.Reader] over the response body.  [pending]
    is what the body still delivers and [failure] the error it reports
    once exhausted ([io_EOF] for an ordinary end).  [reads] counts the
    calls to [ReadBytes]; no code consults it. *)
Record bufio_Reader : Type := {
  pending : bytes;
  failure : error;
  reads : nat
}.

(** [bufio.Reader.ReadBytes(delim)]: the data up to and including the
    first [delim], with a nil error; or what is left together with the
    source's error when there is no [delim] any more. *)
Definition ReadBytes (delim : byte) (r : bufio_Reader)
  : (bytes * option error) * bufio_Reader :=
  match cut delim (pending r) with
  | Some (line, rest) =>
      ((line, None),
       {| pending := rest; failure := failure r; reads := S (reads r) |})
  | None =>
      ((pending r, Some (failure r)),
       {| pending := []; failure := failure r; reads := S (reads r) |})
  end.

(** Modelled from the spec: [utils.ErrorAccumulator] is declared outside
    src/.  The spec describes it as "a growable byte buffer that collects
    bytes": [Write] appends and reports no error, [Bytes] is the content. *)
Definition ErrorAccumulator : Type := bytes.

Definition Write (acc : ErrorAccumulator) (p : bytes)
  : option error * ErrorAccumulator := (None, acc ++ p).

Definition Bytes (acc : ErrorAccumulator) : bytes := acc.

(** [utils.Unmarshaler], an interface: [Unmarshal(data, &v)] at the two
    types the reader uses it at.  Each returns the error and the value
    left in [v], which starts as the zero response, respectively as a nil
    [*ErrorResponse]. *)
Record Unmarshaler_ : Type := {
  Unmarshal : bytes -> option error * T;
  Unmarshal_errResp : bytes -> option error * option ErrorResponse
}.

(** The [Response] field serves [Close] only and is left out. *)
Record StreamReader : Type := {
  EmptyMessagesLimit : uint;
  isFinished : bool;
  Reader : bufio_Reader;
  ErrAccumulator : ErrorAccumulator;
  Unmarshaler : Unmarshaler_
}.

Definition with_Reader (stream : StreamReader) (r : bufio_Reader) :=
  {| EmptyMessagesLimit := EmptyMessagesLimit stream;
     isFinished := isFinished stream;
     Reader := r;
     ErrAccumulator := ErrAccumulator stream;
     Unmarshaler := Unmarshaler stream |}.

Definition with_ErrAccumulator (stream : StreamReader) (a : ErrorAccumulator) :=
  {| EmptyMessagesLimit := EmptyMessagesLimit stream;
     isFinished := isFinished stream;
     Reader := Reader stream;
     ErrAccumulator := a;
     Unmarshaler := Unmarshaler stream |}.

Definition with_isFinished (stream : StreamReader) (b : bool) :=
  {| EmptyMessagesLimit := EmptyMessagesLimit stream;
     isFinished := b;
     Reader := Reader stream;
     ErrAccumulator := ErrAccumulator stream;
     Unmarshaler := Unmarshaler stream |}.

(** What one pass through the body of the [for] loop ends in: a [return],
    or [continue] with the values of the loop's local variables, of type
    [L]. *)
Inductive pass (L : Type) : Type :=
| Return (response : T) (err : option error)
| Continue (locals : L).

(** [unmarshalError], the same in both variants. *)
Definition unmarshalError (stream : StreamReader) : option ErrorResponse :=
  let errBytes := Bytes (ErrAccumulator stream) in
  if (List.length errBytes =? 0)%nat then None
  else
    match Unmarshal_errResp (Unmarshaler stream) errBytes with
    | (Some _, _) => None
    | (None, errResp) => errResp
    end.

(** The buffered input left to a session; every pass that continues has
    consumed some of it. *)
Definition remaining (stream : StreamReader) : nat :=
  List.length (pending (Reader stream)).

End Session.

Arguments io_EOF {APIError}.
Arguments Write {APIError} acc p.
Arguments ErrTooManyEmptyStreamMessages {APIError}.
Arguments ErrForeign {APIError} msg.
Arguments Return {T APIError L} response err.
Arguments Continue {T APIError L} locals.

Definition headerData : bytes := lit "data: ".
Definition errorPrefix : bytes :=
  lit ("data: {" ++ dq ++ "error" ++ dq ++ ":").
Definition doneMarker : bytes := lit "[DONE]".

(** What [errorPrefix] adds to [headerData]. *)
Definition errorMember : bytes := TrimPrefix errorPrefix headerData.

Definition is_err {E : Type} (e : option E) : bool :=
  match e with Some _ => true | None => false end.

Definition inspect {A : Type} (a : A) : {b : A | a = b} := exist _ a eq_refl.

Lemma cut_shorter (delim : byte) (s line rest : bytes) :
  cut delim s = Some (line, rest) -> (List.length rest < List.length s)%nat.
Proof.
  revert line rest.
  induction s as [|c s IH]; intros line rest; simpl; [discriminate|].
  destruct (Byte.eqb c delim).
  - intros [= _ <-]. lia.
  - destruct (cut delim s) as [[l r]|]; [|discriminate].
    intros [= _ <-]. specialize (IH _ _ eq_refl). lia.
Qed.

(** ** src/stream_reader.go: the variant with inline error detection *)

Module Inline.
Section Variant.

Context {T APIError : Type}.
(** [zero] is [*new(T)]; [TrimSpace] is [bytes.TrimSpace]. *)
Variable zero : T.
Variable TrimSpace : bytes -> bytes.

#[local] Abbreviation StreamReader := (StreamReader T APIError).
#[local] Abbreviation pass := (pass T APIError (uint * bool)).

(** One pass through the body of the [for] loop of [processLines]; its
    local variables are [emptyMessagesCount] and [hasErrorPrefix]. *)
Definition loopBody (stream : StreamReader)
    (emptyMessagesCount : uint) (hasErrorPrefix : bool)
  : pass * StreamReader :=
  let '((rawLine, readErr), rd) := ReadBytes nl (Reader stream) in
  let stream := with_Reader stream rd in
  if is_err readErr || hasErrorPrefix then
    match unmarshalError stream with
    | Some respErr => (Return zero (Some (Errorf_w (Error respErr))), stream)
    | None => (Return zero readErr, stream)
    end
  else
    let noSpaceLine := TrimSpace rawLine in
    let hasErrorPrefix :=
      if HasPrefix noSpaceLine errorPrefix then true else hasErrorPrefix in
    if negb (HasPrefix noSpaceLine headerData) || hasErrorPrefix then
      let noSpaceLine :=
        if hasErrorPrefix then TrimPrefix noSpaceLine headerData
        else noSpaceLine in
      let '(writeErr, acc) := Write (ErrAccumulator stream) noSpaceLine in
      let stream := with_ErrAccumulator stream acc in
      match writeErr with
      | Some e => (Return zero (Some e), stream)
      | None =>
          let emptyMessagesCount := uint_incr emptyMessagesCount in
          if (EmptyMessagesLimit stream <? emptyMessagesCount)%N then
            (Return zero (Some ErrTooManyEmptyStreamMessages), stream)
          else (Continue (emptyMessagesCount, hasErrorPrefix), stream)
      end
    else
      let noPrefixLine := TrimPrefix noSpaceLine headerData in
      if bytes_eqb noPrefixLine doneMarker then
        (Return zero (Some io_EOF), with_isFinished stream true)
      else
        match Unmarshal (Unmarshaler stream) noPrefixLine with
        | (Some unmarshalErr, _) => (Return zero (Some unmarshalErr), stream)
        | (None, response) => (Return response None, stream)
        end.

Lemma inline_pass_consumes stream c h c' h' stream' :
  loopBody stream c h = (Continue (c', h'), stream') ->
  (remaining stream' < remaining stream)%nat.
Proof.
  unfold loopBody, ReadBytes, remaining.
  destruct (cut nl (pending (Reader stream))) as [[line rest]|] eqn:Hcut.
  - apply cut_shorter in Hcut. cbn [is_err orb Write].
    repeat match goal with
           | |- context [if ?b then _ else _] => destruct b
           | |- context [match ?x with _ => _ end] => destruct x
           end; intros [= <-]; subst; simpl; try discriminate; assumption.
  - cbn [is_err orb].
    destruct (unmarshalError _); discriminate.
Qed.

(** The [for] loop, entered with the given values of its local variables;
    each turn reads a line, so the loop ends. *)
Equations? processLinesFrom (stream : StreamReader)
    (emptyMessagesCount : uint) (hasErrorPrefix : bool)
  : (T * option (error APIError)) * StreamReader
  by wf (remaining stream) lt :=
  processLinesFrom stream c h with inspect (loopBody stream c h) := {
    | exist _ (Return response err, stream') _ => ((response, err), stream');
    | exist _ (Continue (c', h'), stream') Hpass =>
        processLinesFrom stream' c' h' }.
Proof. exact (inline_pass_consumes _ _ _ Hpass). Qed.

(** [processLines] enters the loop with both local variables at their
    zero values. *)
Definition processLines (stream : StreamReader)
  : (T * option (error APIError)) * StreamReader :=
  processLinesFrom stream 0%N false.

Definition Recv (stream : StreamReader)
  : (T * option (error APIError)) * StreamReader :=
  if isFinished stream then ((zero, Some io_EOF), stream)
  else processLines stream.

End Variant.
End Inline.

(** ** src/unnamed/part_000: the variant without inline error detection *)

Module Plain.
Section Variant.

Context {T APIError : Type}.
Variable zero : T.
Variable TrimSpace : bytes -> bytes.

#[local] Abbreviation StreamReader := (StreamReader T APIError).
#[local] Abbreviation pass := (pass T APIError uint).

(** One pass through the body of the [for] loop of [processLines]; its
    only local variable is [emptyMessagesCount]. *)
Definition loopBody (stream : StreamReader) (emptyMessagesCount : uint)
  : pass * StreamReader :=
  let '((rawLine, readErr), rd) := ReadBytes nl (Reader stream) in
  let stream := with_Reader stream rd in
  if is_err readErr then
    match unmarshalError stream with
    | Some respErr => (Return zero (Some (Errorf_w (Error respErr))), stream)
    | None => (Return zero readErr, stream)
    end
  else
    let noSpaceLine := TrimSpace rawLine in
    if negb (HasPrefix noSpaceLine headerData) then
      let '(writeErr, acc) := Write (ErrAccumulator stream) noSpaceLine in
      let stream := with_ErrAccumulator stream acc in
      match writeErr with
      | Some e => (Return zero (Some e), stream)
      | None =>
          let emptyMessagesCount := uint_incr emptyMessagesCount in
          if (EmptyMessagesLimit stream <? emptyMessagesCount)%N then
            (Return zero (Some ErrTooManyEmptyStreamMessages), stream)
          else (Continue emptyMessagesCount, stream)
      end
    else
      let noPrefixLine := TrimPrefix noSpaceLine headerData in
      if bytes_eqb noPrefixLine doneMarker then
        (Return zero (Some io_EOF), with_isFinished stream true)
      else
        match Unmarshal (Unmarshaler stream) noPrefixLine with
        | (Some unmarshalErr, _) => (Return zero (Some unmarshalErr), stream)
        | (None, response) => (Return response None, stream)
        end.

Lemma plain_pass_consumes stream c c' stream' :
  loopBody stream c = (Continue c', stream') ->
  (remaining stream' < remaining stream)%nat.
Proof.
  unfold loopBody, ReadBytes, remaining.
  destruct (cut nl (pending (Reader stream))) as [[line rest]|] eqn:Hcut.
  - apply cut_shorter in Hcut. cbn [is_err Write].
    repeat match goal with
           | |- context [if ?b then _ else _] => destruct b
           | |- context [match ?x with _ => _ end] => destruct x
           end; intros [= <-]; subst; simpl; try discriminate; assumption.
  - cbn [is_err].
    destruct (unmarshalError _); discriminate.
Qed.

Equations? processLinesFrom (stream : StreamReader)
    (emptyMessagesCount : uint)
  : (T * option (error APIError)) * StreamReader
  by wf (remaining stream) lt :=
  processLinesFrom stream c with inspect (loopBody stream c) := {
    | exist _ (Return response err, stream') _ => ((response, err), stream');
    | exist _ (Continue c', stream') Hpass => processLinesFrom stream' c' }.
Proof. exact (plain_pass_consumes _ _ Hpass). Qed.

Definition processLines (stream : StreamReader)
  : (T * option (error APIError)) * StreamReader :=
  processLinesFrom stream 0%N.

Definition Recv (stream : StreamReader)
  : (T * option (error APIError)) * StreamReader :=
  if isFinished stream then ((zero, Some io_EOF), stream)
  else processLines stream.

End Variant.
End Plain.

(** ** Successive calls *)

(** [calls recv n stream]: the results of [n] successive calls of [recv],
    each on the session the previous one left, and the session after the
    last. *)
Fixpoint calls {S R : Type} (recv : S -> R * S) (n : nat) (stream : S)
  : list R * S :=
  match n with
  | O => ([], stream)
  | S n' =>
      let '(r, stream') := recv stream in
      let '(rs, stream'') := calls recv n' stream' in
      (r :: rs, stream'')
  end.

(** ** Lines of a response body *)

(** [is_line l]: [l] is one terminated line, a line feed at its end and
    nowhere before. *)
Definition is_line (l : bytes) : Prop := cut nl l = Some (l, []).

(** The complete lines a body delivers to successive [ReadBytes] calls;
    an unterminated tail is not among them. *)
Equations? lines (body : bytes) : list bytes by wf (List.length body) lt :=
  lines body with inspect (cut nl body) := {
    | exist _ (Some (line, rest)) Hcut => line :: lines rest;
    | exist _ None _ => [] }.
Proof. exact (cut_shorter _ _ Hcut). Qed.

Section Framing.

Variable TrimSpace : bytes -> bytes.

(** What follows [data: ] on the trimmed line. *)
Definition payload (rawLine : bytes) : bytes :=
  TrimPrefix (TrimSpace rawLine) headerData.

(** The line is an event line: it carries the [data: ] prefix. *)
Definition is_event (rawLine : bytes) : bool :=
  HasPrefix (TrimSpace rawLine) headerData.

(** The line is an inline error line: it starts with [data: {"error":]. *)
Definition is_inline_error (rawLine : bytes) : bool :=
  HasPrefix (TrimSpace rawLine) errorPrefix.

(** No complete line of the body is an inline error line. *)
Definition no_inline_error (body : bytes) : bool :=
  forallb (fun l => negb (is_inline_error l)) (lines body).

(** [l] is the line of a compliant event that decodes to [v]: one
    terminated line with the prefix, whose payload is not the sentinel
    and decodes without error, leaving [v]. *)
Definition event_line {T APIError : Type} (u : Unmarshaler_ T APIError)
    (l : bytes) (v : T) : Prop :=
  is_line l /\ is_event l = true /\
  bytes_eqb (payload l) doneMarker = false /\
  Unmarshal u (payload l) = (None, v).

(** [l] is the closing line [data: [DONE]]. *)
Definition done_line (l : bytes) : Prop :=
  is_line l /\ is_event l = true /\ payload l = doneMarker.

End Framing.

(** ** Sessions and results the properties speak of *)

Section Observations.

Context {T APIError : Type}.
Variable zero : T.
Variable TrimSpace : bytes -> bytes.

#[local] Abbreviation StreamReader := (StreamReader T APIError).

(** The outcome of the error check of both variants: the wrapped detail
    of a decoded envelope, or else the error of the read. *)
Definition errorOutcome (stream : StreamReader)
    (readErr : option (error APIError)) : option (error APIError) :=
  match unmarshalError stream with
  | Some respErr => Some (Errorf_w (Error respErr))
  | None => readErr
  end.

(** The session after a non-payload line: the line is consumed and
    [written] has been appended to the accumulator. *)
Definition accumulated (stream : StreamReader)
    (rd : bufio_Reader APIError) (written : bytes) : StreamReader :=
  with_ErrAccumulator (with_Reader stream rd)
    (ErrAccumulator stream ++ written).


(** The results a compliant stream of events [evs] owes to the first [j]
    calls: the decoded values in order, then [io.EOF] for good. *)
Definition expected (evs : list (bytes * T)) (j : nat)
  : list (T * option (error APIError)) :=
  firstn j (map (fun ev => (snd ev, None)) evs)
  ++ repeat (zero, Some io_EOF) (j - List.length evs).

End Observations.

(** ** A sample decoder and sample sessions, for the closed examples *)

Module Sample.

(** A decoded event is the payload it came from; an error detail is the
    text of the [error] member. *)
Definition T := bytes.
Definition APIError := bytes.
Definition zero : T := [].

Definition ends_with (s suffix : bytes) : bool :=
  HasPrefix (rev s) (rev suffix).

Definition is_object (p : bytes) : bool :=
  HasPrefix p (lit "{") && ends_with p (lit "}").

Definition syntax_error : error APIError :=
  ErrForeign "invalid character".

(** Accepts what starts with an opening and ends with a closing brace. *)
Definition decode_event (p : bytes) : option (error APIError) * T :=
  if is_object p then (None, p) else (Some syntax_error, zero).

(** [null] leaves the envelope pointer nil; an object with a leading
    [error] member yields that member as the detail; any other object
    yields an envelope without detail. *)
Definition decode_envelope (p : bytes)
  : option (error APIError) * option (ErrorResponse APIError) :=
  if bytes_eqb p (lit "null") then (None, None)
  else if is_object p then
    if HasPrefix p errorMember then
      (None, Some {| Error := Some (removelast (TrimPrefix p errorMember)) |})
    else (None, Some {| Error := None |})
  else (Some syntax_error, None).

Definition json : Unmarshaler_ T APIError :=
  {| Unmarshal := decode_event; Unmarshal_errResp := decode_envelope |}.

(** A fresh session over [body], which ends in [io_EOF]. *)
Definition session (limit : N) (body : string) : StreamReader T APIError :=
  {| EmptyMessagesLimit := limit;
     isFinished := false;
     Reader := {| pending := lit body; failure := io_EOF; reads := 0 |};
     ErrAccumulator := [];
     Unmarshaler := json |}.

(** Lines on the wire. *)
Definition event_text : string :=
  "data: {" ++ dq ++ "id" ++ dq ++ ":" ++ dq ++ "1" ++ dq ++ "}" ++ lf.
Definition done_text : string := "data: [DONE]" ++ lf.
Definition server_error_text : string :=
  "{" ++ dq ++ "error" ++ dq ++ ":{" ++ dq ++ "message" ++ dq ++ ":"
  ++ dq ++ "bad request" ++ dq ++ "}}" ++ lf.
Definition inline_error_text : string := "data: " ++ server_error_text.
Definition broken_error_text : string :=
  "data: {" ++ dq ++ "error" ++ dq ++ ":oops" ++ lf.
Definition broken_event_text : string := "data: {not valid json" ++ lf.

(** The value the sample event decodes to. *)
Definition event_value : T := payload TrimSpace_ascii (lit event_text).

(** Sessions. *)
Definition compliant := session 2 (event_text ++ done_text).
Definition done_only := session 2 done_text.
Definition drained :=
  snd (Inline.Recv zero TrimSpace_ascii done_only).
Definition three_blank := session 2 (lf ++ lf ++ lf ++ done_text).
Definition blank_no_tolerance := session 0 (lf ++ done_text).
Definition bare_object := session 2 ("{}" ++ lf).
Definition server_error := session 2 server_error_text.
Definition inline_error := session 2 (inline_error_text ++ done_text).
Definition inline_error_no_tolerance :=
  session 0 (inline_error_text ++ done_text).
Definition broken_error := session 2 (broken_error_text ++ done_text).
Definition broken_event := session 2 broken_event_text.
Definition comment_first := session 2 (": keep-alive" ++ lf ++ done_text).

(** A session whose body is exhausted and whose accumulator holds the
    error body a server sent without the prefix. *)
Definition error_body : bytes := TrimSpace_ascii (lit server_error_text).
Definition exhausted : StreamReader T APIError :=
  {| EmptyMessagesLimit := 2%N;
     isFinished := false;
     Reader := {| pending := []; failure := io_EOF; reads := 1 |};
     ErrAccumulator := error_body;
     Unmarshaler := json |}.
Definition error_detail : APIError :=
  removelast (TrimPrefix error_body errorMember).

(** The first line of a session's body, and the line source after it has
    been read. *)
Definition first_line (s : StreamReader T APIError) : bytes :=
  fst (fst (ReadBytes nl (Reader s))).
Definition after_first_line (s : StreamReader T APIError)
  : bufio_Reader APIError :=
  snd (ReadBytes nl (Reader s)).

End Sample.

(** ** Sessions at a distance of several reads *)

Section Progress.

Context {T APIError : Type}.
Variable TrimSpace : bytes -> bytes.

#[local] Abbreviation StreamReader := (StreamReader T APIError).

(** [later s s']: [s'] is [s] further along the same body, with the same
    settings: a prefix of the pending input is gone, the read count did
    not go down and a raised finished flag stayed up. *)
Definition later (s s' : StreamReader) : Prop :=
  EmptyMessagesLimit s' = EmptyMessagesLimit s /\
  Unmarshaler s' = Unmarshaler s /\
  failure (Reader s') = failure (Reader s) /\
  (reads (Reader s) <= reads (Reader s'))%nat /\
  (isFinished s = true -> isFinished s' = true) /\
  exists consumed, pending (Reader s) = consumed ++ pending (Reader s').

(** The session after the non-payload lines [ls] have been read from a
    body that goes on with [rest]. *)
Definition skipped (s : StreamReader) (ls : list bytes) (rest : bytes)
  : StreamReader :=
  {| EmptyMessagesLimit := EmptyMessagesLimit s;
     isFinished := isFinished s;
     Reader := {| pending := rest;
                  failure := failure (Reader s);
                  reads := List.length ls + reads (Reader s) |};
     ErrAccumulator := ErrAccumulator s ++ List.concat (map TrimSpace ls);
     Unmarshaler := Unmarshaler s |}.

(** [l] is a terminated line without the [data: ] prefix. *)
Definition non_payload_line (l : bytes) : Prop :=
  is_line l /\ is_event TrimSpace l = false.

(** The session after the body, which held no further line feed, has been
    read to its end by [n] reads. *)
Definition drained_by (s : StreamReader) (n : nat) : StreamReader :=
  with_Reader s {| pending := [];
                   failure := failure (Reader s);
                   reads := n + reads (Reader s) |}.

(** An event with the non-payload lines that precede it on the wire: the
    lines, the line of the event and the value it decodes to. *)
Definition block : Type := (list bytes * bytes) * T.

Definition block_bytes (b : block) : bytes :=
  List.concat (fst (fst b)) ++ snd (fst b).

Definition block_event (b : block) : bytes * T := (snd (fst b), snd b).

(** The block is within the tolerance [limit]: at most [limit]
    non-payload lines, then the line of an event that decodes to the
    block's value. *)
Definition block_within (u : Unmarshaler_ T APIError) (limit : uint)
    (b : block) : Prop :=
  Forall non_payload_line (fst (fst b)) /\
  (N.of_nat (List.length (fst (fst b))) <= limit)%N /\
  event_line TrimSpace u (snd (fst b)) (snd b).

End Progress.

(** ** src/unnamed/part_001: chat completion messages and requests *)

Module Chat.

(** A Go [string] is a sequence of bytes. *)
Definition gostring := bytes.

Inductive chat_error : Type :=
| ErrChatCompletionInvalidModel
| ErrChatCompletionStreamNotSupported
| ErrContentFieldsMisused
| ErrLibrary (msg : string).
    (* an error of encoding/json or of the HTTP client *)

Definition chatCompletionsSuffix : gostring := lit "/chat/completions".
Definition http_MethodPost : gostring := lit "POST".

Definition FinishReason := gostring.
Definition FinishReasonStop : FinishReason := lit "stop".
Definition FinishReasonLength : FinishReason := lit "length".
Definition FinishReasonFunctionCall : FinishReason := lit "function_call".
Definition FinishReasonContentFilter : FinishReason := lit "content_filter".
Definition FinishReasonNull : FinishReason := lit "null".

(** [FinishReason.MarshalJSON]. *)
Definition FinishReason_MarshalJSON (r : FinishReason)
  : bytes * option chat_error :=
  if bytes_eqb r FinishReasonNull || bytes_eqb r (lit "") then
    (lit "null", None)
  else (lit dq ++ r ++ lit dq, None).

Record ChatMessageImageURL : Type := {
  URL : gostring;
  Detail : gostring
}.

Record ChatMessagePart : Type := {
  Type_ : gostring;
  Text : gostring;
  ImageURL : option ChatMessageImageURL
}.

Record FunctionCall : Type := {
  FunctionCall_Name : gostring;
  FunctionCall_Arguments : gostring
}.

(** [MultiContent] is a slice: [None] is the nil slice, [Some []] an empty
    slice that is not nil. *)
Record ChatCompletionMessage : Type := {
  Role : gostring;
  Content : gostring;
  MultiContent : option (list ChatMessagePart);
  Name : gostring;
  Message_FunctionCall : option FunctionCall
}.

Definition not_nil {A : Type} (slice : option (list A)) : bool :=
  match slice with
  | None => false
  | Some _ => true
  end.

Definition len {A : Type} (slice : option (list A)) : nat :=
  match slice with
  | None => 0
  | Some l => List.length l
  end.

(** The two anonymous struct types [MarshalJSON] converts a message to:
    the same fields, with the JSON key [content] on [Content] and
    [MultiContent] left out, or the other way round. *)
Inductive message_view : Type :=
| ContentAsContent (m : ChatCompletionMessage)
| MultiContentAsContent (m : ChatCompletionMessage).

Section Marshal.

(** [json.Marshal] at the two struct types. *)
Variable json_Marshal : message_view -> bytes * option chat_error.

(** [ChatCompletionMessage.MarshalJSON]. *)
Definition MarshalJSON (m : ChatCompletionMessage)
  : bytes * option chat_error :=
  if negb (bytes_eqb (Content m) (lit "")) && not_nil (MultiContent m) then
    ([], Some ErrContentFieldsMisused)
  else if (0 <? len (MultiContent m))%nat then
    json_Marshal (MultiContentAsContent m)
  else json_Marshal (ContentAsContent m).

End Marshal.

Section Client.

(** The request and response structs, of which [CreateChatCompletion]
    reads [Stream] and [Model] and returns the zero response; the
    context; an HTTP request; and what lies beyond the client, which only
    [sendRequest] touches. *)
Variables ChatCompletionRequest ChatCompletionResponse : Type.
Variable Stream : ChatCompletionRequest -> bool.
Variable Model : ChatCompletionRequest -> gostring.
Variable zeroResponse : ChatCompletionResponse.
Variables Context_ Request Network : Type.

(** The helpers of the client, declared outside src/. *)
Variable checkEndpointSupportsModel : gostring -> gostring -> bool.
Variable fullURL : gostring -> gostring -> gostring.
Variable newRequest :
  Context_ -> gostring -> gostring -> ChatCompletionRequest ->
  Request * option chat_error.
Variable sendRequest :
  Request -> Network -> (ChatCompletionResponse * option chat_error) * Network.

(** [Client.CreateChatCompletion]. *)
Definition CreateChatCompletion (ctx : Context_)
    (request : ChatCompletionRequest) (net : Network)
  : (ChatCompletionResponse * option chat_error) * Network :=
  if Stream request then
    ((zeroResponse, Some ErrChatCompletionStreamNotSupported), net)
  else
    let urlSuffix := chatCompletionsSuffix in
    if negb (checkEndpointSupportsModel urlSuffix (Model request)) then
      ((zeroResponse, Some ErrChatCompletionInvalidModel), net)
    else
      let '(req, err) :=
        newRequest ctx http_MethodPost (fullURL urlSuffix (Model request))
          request in
      match err with
      | Some e => ((zeroResponse, Some e), net)
      | None => sendRequest req net
      end.

End Client.

End Chat.

(** ** Further sample sessions and a sample client *)

Module MoreSamples.

Import Sample.

(** The closing line without its line feed. *)
Definition unterminated_done := session 2 "data: [DONE]".

(** Two blank lines, an event and the closing line, with a limit of 2. *)
Definition blanks_then_event :=
  session 2 (lf ++ lf ++ event_text ++ done_text).

(** Three blank lines and an event, with the largest limit. *)
Definition largest_limit : StreamReader T APIError :=
  {| EmptyMessagesLimit := (uint_modulus - 1)%N;
     isFinished := false;
     Reader := {| pending := lit (lf ++ lf ++ lf ++ event_text);
                  failure := io_EOF; reads := 0 |};
     ErrAccumulator := [];
     Unmarshaler := json |}.

(** A blank line before each of two events and before the closing line,
    with a limit of 1. *)
Definition one_blank_each :=
  session 1 (lf ++ event_text ++ lf ++ event_text ++ lf ++ done_text).

(** A line that starts as an inline error and is no JSON, then a comment
    line, then the closing line. *)
Definition comment_after_error :=
  session 2 (broken_error_text ++ ": keep-alive" ++ lf ++ done_text).

(** An inline error line, then a line that is no JSON. *)
Definition event_after_error :=
  session 2 (inline_error_text ++ broken_event_text).

Definition blank_and_event : @block T :=
  (([lit lf], lit event_text), event_value).

(** A client whose requests are a stream flag and a model name, which
    supports the model [gpt] only, builds no request for an empty model
    name and counts what it sends. *)
Definition sample_request : Type := bool * bytes.

Definition supports (suffix model : bytes) : bool :=
  bytes_eqb model (lit "gpt").

Definition build (ctx : unit) (method url : bytes) (body : sample_request)
  : bytes * option Chat.chat_error :=
  if bytes_eqb (snd body) (lit "") then (url, Some (Chat.ErrLibrary "no model"))
  else (method ++ lit " " ++ url, None).

Definition send (req : bytes) (sent : nat)
  : (bytes * option Chat.chat_error) * nat :=
  ((req, None), S sent).

Definition sample_create :=
  Chat.CreateChatCompletion fst snd ([] : bytes) supports
    (fun suffix model => model ++ suffix) build send.

End MoreSamples.

(** * Properties *)

(** ** Byte strings and lines *)

Lemma bytes_eqb_eq (a b : bytes) : bytes_eqb a b = true <-> a = b.
Proof.
  revert b; induction a as [|x a IH]; intros [|y b]; simpl;
    try (split; [discriminate | intros [=]]); [tauto|].
  rewrite andb_true_iff, IH. split.
  - intros [Hxy ->]. apply Byte.byte_dec_bl in Hxy. now subst.
  - intros [= -> ->]. split; [apply Byte.byte_dec_lb|]; reflexivity.
Qed.

Lemma bytes_eqb_neq (a b : bytes) : bytes_eqb a b = false <-> a <> b.
Proof.
  rewrite <- bytes_eqb_eq. destruct (bytes_eqb a b); split; congruence.
Qed.

Lemma HasPrefix_split (s p : bytes) :
  HasPrefix s p = true -> s = p ++ skipn (List.length p) s.
Proof.
  revert s; induction p as [|x p IH]; intros [|y s]; simpl;
    try reflexivity; try discriminate.
  rewrite andb_true_iff. intros [Hxy Hp].
  apply Byte.byte_dec_bl in Hxy. subst. f_equal. now apply IH.
Qed.

Lemma HasPrefix_app_l (s p q : bytes) :
  HasPrefix s (p ++ q) = true -> HasPrefix s p = true.
Proof.
  revert s; induction p as [|x p IH]; intros [|y s]; simpl;
    try reflexivity; try discriminate.
  rewrite !andb_true_iff. intros [Hxy Hp]. split; [assumption|].
  now apply IH.
Qed.

Lemma errorPrefix_headerData (s : bytes) :
  HasPrefix s errorPrefix = true -> HasPrefix s headerData = true.
Proof. apply (HasPrefix_app_l s headerData errorMember). Qed.

(** On the wire: [data: ] followed by a payload that holds no line feed
    and ends in a byte that is no white space, then the line feed, is one
    line, and trimming it removes the line feed only. *)
Lemma wire_line_is_line (p : bytes) :
  ~ In nl p -> is_line (headerData ++ p ++ [nl]).
Proof.
  intros Hp. unfold is_line.
  assert (H : forall q, ~ In nl q -> cut nl (q ++ [nl]) = Some (q ++ [nl], [])).
  { induction q as [|c q IH]; intros Hq; [reflexivity|].
    cbn [cut app]. destruct (Byte.eqb c nl) eqn:E.
    - apply Byte.byte_dec_bl in E. subst. exfalso. apply Hq. now left.
    - rewrite IH; [reflexivity|]. intros Hin. apply Hq. now right. }
  rewrite app_assoc. apply H.
  intros Hin. apply in_app_or in Hin. destruct Hin as [Hin|Hin]; [|tauto].
  vm_compute in Hin. intuition discriminate.
Qed.

Lemma TrimLeft_stops (c : byte) (s : bytes) :
  asciiSpace c = false -> TrimLeft (c :: s) = c :: s.
Proof. intros H. simpl. now rewrite H. Qed.

Lemma wire_line_trimmed (p : bytes) (c : byte) :
  asciiSpace c = false ->
  TrimSpace_ascii (headerData ++ (p ++ [c]) ++ [nl]) = headerData ++ p ++ [c].
Proof.
  intros Hc. unfold TrimSpace_ascii.
  change (headerData ++ (p ++ [c]) ++ [nl])
    with (x64 :: (lit "ata: " ++ (p ++ [c]) ++ [nl])).
  rewrite TrimLeft_stops by reflexivity.
  change (x64 :: (lit "ata: " ++ (p ++ [c]) ++ [nl]))
    with (headerData ++ (p ++ [c]) ++ [nl]).
  replace (headerData ++ (p ++ [c]) ++ [nl])
    with (((headerData ++ p) ++ [c]) ++ [nl])
    by (now rewrite <- !app_assoc).
  rewrite !rev_app_distr. cbn [rev app].
  change (TrimLeft (nl :: c :: rev p ++ rev headerData))
    with (TrimLeft (c :: rev p ++ rev headerData)).
  rewrite (@TrimLeft_stops c _ Hc).
  cbn [rev]. rewrite rev_app_distr, !rev_involutive, <- app_assoc.
  reflexivity.
Qed.

Lemma TrimPrefix_split (s p : bytes) :
  HasPrefix s p = true -> s = p ++ TrimPrefix s p.
Proof.
  intros H. unfold TrimPrefix. rewrite H. now apply HasPrefix_split.
Qed.

Lemma cut_app (delim : byte) (l rest : bytes) :
  cut delim l = Some (l, []) -> cut delim (l ++ rest) = Some (l, rest).
Proof.
  induction l as [|c l IH]; simpl; [discriminate|].
  destruct (Byte.eqb c delim).
  - intros [= H1 H2]. subst. reflexivity.
  - destruct (cut delim l) as [[l' r']|] eqn:Hcut; [|discriminate].
    intros [= H1 H2]. subst. now rewrite IH.
Qed.

Lemma lines_cut (body : bytes) :
  lines body =
  match cut nl body with
  | Some (line, rest) => line :: lines rest
  | None => []
  end.
Proof.
  funelim (lines body).
  - rewrite Hcut. reflexivity.
  - rewrite e. reflexivity.
Qed.

Section ReaderFacts.

Context {APIError : Type}.

Lemma ReadBytes_line (r : bufio_Reader APIError) (l rest : bytes) :
  is_line l -> pending r = l ++ rest ->
  ReadBytes nl r =
  ((l, None),
   {| pending := rest; failure := failure r; reads := S (reads r) |}).
Proof.
  intros Hl Hp. unfold ReadBytes. rewrite Hp, (@cut_app nl l rest Hl). reflexivity.
Qed.

Lemma ReadBytes_ok_cut (r rd : bufio_Reader APIError) (l : bytes) :
  ReadBytes nl r = ((l, None), rd) ->
  cut nl (pending r) = Some (l, pending rd).
Proof.
  unfold ReadBytes.
  destruct (cut nl (pending r)) as [[l' rest]|]; intros H;
    inversion H; subst; reflexivity.
Qed.

Lemma ReadBytes_err_pending (r rd : bufio_Reader APIError) (l : bytes) e :
  ReadBytes nl r = ((l, Some e), rd) -> pending rd = [].
Proof.
  unfold ReadBytes.
  destruct (cut nl (pending r)) as [[l' rest]|]; intros H;
    inversion H; subst; reflexivity.
Qed.

End ReaderFacts.

(** ** One pass of the loop, case by case *)

Section PassFacts.

Context {T APIError : Type}.
Variable zero : T.
Variable TrimSpace : bytes -> bytes.

#[local] Abbreviation StreamReader := (StreamReader T APIError).
#[local] Abbreviation iLoop := (Inline.processLinesFrom zero TrimSpace).
#[local] Abbreviation pLoop := (Plain.processLinesFrom zero TrimSpace).
#[local] Abbreviation iBody := (Inline.loopBody zero TrimSpace).
#[local] Abbreviation pBody := (Plain.loopBody zero TrimSpace).

Lemma Inline_loop_pass (s : StreamReader) c h :
  iLoop s c h =
  match iBody s c h with
  | (Return response err, s') => ((response, err), s')
  | (Continue (c', h'), s') => iLoop s' c' h'
  end.
Proof.
  funelim (Inline.processLinesFrom zero TrimSpace s c h).
  - rewrite e. reflexivity.
  - rewrite Hpass. reflexivity.
Qed.

Lemma Plain_loop_pass (s : StreamReader) c :
  pLoop s c =
  match pBody s c with
  | (Return response err, s') => ((response, err), s')
  | (Continue c', s') => pLoop s' c'
  end.
Proof.
  funelim (Plain.processLinesFrom zero TrimSpace s c).
  - rewrite e. reflexivity.
  - rewrite Hpass. reflexivity.
Qed.

Lemma Inline_pass_read_failed (s : StreamReader) c h raw e rd :
  ReadBytes nl (Reader s) = ((raw, Some e), rd) ->
  iBody s c h = (Return zero (errorOutcome s (Some e)), with_Reader s rd).
Proof.
  intros Hread. unfold Inline.loopBody, errorOutcome. rewrite Hread.
  cbn [is_err orb]. change (unmarshalError (with_Reader s rd))
    with (unmarshalError s).
  destruct (unmarshalError s); reflexivity.
Qed.

Lemma Inline_pass_flagged (s : StreamReader) c raw readErr rd :
  ReadBytes nl (Reader s) = ((raw, readErr), rd) ->
  iBody s c true = (Return zero (errorOutcome s readErr), with_Reader s rd).
Proof.
  intros Hread. unfold Inline.loopBody, errorOutcome. rewrite Hread.
  rewrite orb_true_r. change (unmarshalError (with_Reader s rd))
    with (unmarshalError s).
  destruct (unmarshalError s); reflexivity.
Qed.

Lemma Inline_pass_non_payload (s : StreamReader) c raw rd :
  ReadBytes nl (Reader s) = ((raw, None), rd) ->
  is_event TrimSpace raw = false ->
  iBody s c false =
  (if (EmptyMessagesLimit s <? uint_incr c)%N
   then Return zero (Some ErrTooManyEmptyStreamMessages)
   else Continue (uint_incr c, false),
   accumulated s rd (TrimSpace raw)).
Proof.
  intros Hread Hev. unfold is_event in Hev.
  assert (Hne : HasPrefix (TrimSpace raw) errorPrefix = false).
  { destruct (HasPrefix (TrimSpace raw) errorPrefix) eqn:E; [|reflexivity].
    apply errorPrefix_headerData in E. congruence. }
  unfold Inline.loopBody. rewrite Hread. cbn [is_err orb].
  rewrite Hne, Hev. cbn.
  destruct (EmptyMessagesLimit s <? uint_incr c)%N; reflexivity.
Qed.

Lemma Inline_pass_error_line (s : StreamReader) c raw rd :
  ReadBytes nl (Reader s) = ((raw, None), rd) ->
  is_inline_error TrimSpace raw = true ->
  iBody s c false =
  (if (EmptyMessagesLimit s <? uint_incr c)%N
   then Return zero (Some ErrTooManyEmptyStreamMessages)
   else Continue (uint_incr c, true),
   accumulated s rd (payload TrimSpace raw)).
Proof.
  intros Hread Herr. unfold is_inline_error in Herr.
  unfold Inline.loopBody. rewrite Hread. cbn [is_err orb].
  rewrite Herr, orb_true_r. cbn.
  destruct (EmptyMessagesLimit s <? uint_incr c)%N; reflexivity.
Qed.

Lemma Inline_pass_event (s : StreamReader) c raw rd :
  ReadBytes nl (Reader s) = ((raw, None), rd) ->
  is_event TrimSpace raw = true ->
  is_inline_error TrimSpace raw = false ->
  iBody s c false =
  if bytes_eqb (payload TrimSpace raw) doneMarker
  then (Return zero (Some io_EOF), with_isFinished (with_Reader s rd) true)
  else match Unmarshal (Unmarshaler s) (payload TrimSpace raw) with
       | (Some unmarshalErr, _) =>
           (Return zero (Some unmarshalErr), with_Reader s rd)
       | (None, response) => (Return response None, with_Reader s rd)
       end.
Proof.
  intros Hread Hev Herr. unfold is_event in Hev.
  unfold is_inline_error in Herr.
  unfold Inline.loopBody. rewrite Hread. cbn [is_err orb].
  rewrite Herr, Hev. cbn. reflexivity.
Qed.

Lemma Plain_pass_read_failed (s : StreamReader) c raw e rd :
  ReadBytes nl (Reader s) = ((raw, Some e), rd) ->
  pBody s c = (Return zero (errorOutcome s (Some e)), with_Reader s rd).
Proof.
  intros Hread. unfold Plain.loopBody, errorOutcome. rewrite Hread.
  cbn [is_err]. change (unmarshalError (with_Reader s rd))
    with (unmarshalError s).
  destruct (unmarshalError s); reflexivity.
Qed.

Lemma Plain_pass_non_payload (s : StreamReader) c raw rd :
  ReadBytes nl (Reader s) = ((raw, None), rd) ->
  is_event TrimSpace raw = false ->
  pBody s c =
  (if (EmptyMessagesLimit s <? uint_incr c)%N
   then Return zero (Some ErrTooManyEmptyStreamMessages)
   else Continue (uint_incr c),
   accumulated s rd (TrimSpace raw)).
Proof.
  intros Hread Hev. unfold is_event in Hev.
  unfold Plain.loopBody. rewrite Hread. cbn [is_err].
  rewrite Hev. cbn.
  destruct (EmptyMessagesLimit s <? uint_incr c)%N; reflexivity.
Qed.

Lemma Plain_pass_event (s : StreamReader) c raw rd :
  ReadBytes nl (Reader s) = ((raw, None), rd) ->
  is_event TrimSpace raw = true ->
  pBody s c =
  if bytes_eqb (payload TrimSpace raw) doneMarker
  then (Return zero (Some io_EOF), with_isFinished (with_Reader s rd) true)
  else match Unmarshal (Unmarshaler s) (payload TrimSpace raw) with
       | (Some unmarshalErr, _) =>
           (Return zero (Some unmarshalErr), with_Reader s rd)
       | (None, response) => (Return response None, with_Reader s rd)
       end.
Proof.
  intros Hread Hev. unfold is_event in Hev.
  unfold Plain.loopBody. rewrite Hread. cbn [is_err].
  rewrite Hev. cbn. reflexivity.
Qed.

End PassFacts.

Lemma HasPrefix_app (p s : bytes) : HasPrefix (p ++ s) p = true.
Proof.
  induction p as [|x p IH]; [reflexivity|]. cbn [app HasPrefix].
  rewrite IH, andb_true_r. now apply Byte.byte_dec_lb.
Qed.

Lemma TrimPrefix_app (p s : bytes) : TrimPrefix (p ++ s) p = s.
Proof.
  unfold TrimPrefix. rewrite HasPrefix_app.
  induction p as [|x p IH]; [reflexivity | exact IH].
Qed.

(** A line [data: <payload>] of the wire, whose payload ends in a byte that
    is no white space, is not the sentinel and decodes to [v], is the line
    of an event with value [v]. *)
Lemma wire_event_line {T APIError : Type} (u : Unmarshaler_ T APIError)
    (p : bytes) (c : byte) (v : T) :
  ~ In nl (p ++ [c]) ->
  asciiSpace c = false ->
  p ++ [c] <> doneMarker ->
  Unmarshal u (p ++ [c]) = (None, v) ->
  event_line TrimSpace_ascii u (headerData ++ (p ++ [c]) ++ [nl]) v.
Proof.
  intros Hnl Hc Hnd Hdec. unfold event_line, is_event, payload.
  rewrite (@wire_line_trimmed p c Hc), HasPrefix_app, TrimPrefix_app.
  split; [now apply wire_line_is_line|].
  split; [reflexivity|]. split; [now apply bytes_eqb_neq | assumption].
Qed.

(** ** The session after its end, the sentinel, decode failures *)

Section Claims.

Context {T APIError : Type}.
Variable zero : T.
Variable TrimSpace : bytes -> bytes.

#[local] Abbreviation StreamReader := (StreamReader T APIError).
#[local] Abbreviation iRecv := (Inline.Recv zero TrimSpace).
#[local] Abbreviation pRecv := (Plain.Recv zero TrimSpace).
#[local] Abbreviation iLoop := (Inline.processLinesFrom zero TrimSpace).
#[local] Abbreviation pLoop := (Plain.processLinesFrom zero TrimSpace).
#[local] Abbreviation iBody := (Inline.loopBody zero TrimSpace).
#[local] Abbreviation pBody := (Plain.loopBody zero TrimSpace).
#[local] Abbreviation EOF := (zero, Some (@io_EOF APIError)).

Lemma calls_finished (recv : StreamReader -> _ * StreamReader) s :
  recv s = (EOF, s) -> forall n, calls recv n s = (repeat EOF n, s).
Proof.
  intros Hrecv n. induction n as [|n IH]; simpl; [reflexivity|].
  rewrite Hrecv, IH. reflexivity.
Qed.

Lemma done_line_not_error raw :
  is_event TrimSpace raw = true -> payload TrimSpace raw = doneMarker ->
  is_inline_error TrimSpace raw = false.
Proof.
  unfold is_event, payload, is_inline_error. intros Hev Hdone.
  rewrite (TrimPrefix_split _ _ Hev), Hdone. reflexivity.
Qed.

(** C1.  Once the finished flag of a session is set, [Recv] returns the
    zero response with [io.EOF] and leaves the session as it was, the
    line source included: its pending input and its count of reads are
    those from before the call.  The same holds for any number of
    successive calls, in both variants. *)
Theorem finished_recv_is_eof_without_read (s : StreamReader) :
  isFinished s = true ->
  iRecv s = (EOF, s) /\ pRecv s = (EOF, s) /\
  forall n,
    calls iRecv n s = (repeat EOF n, s) /\
    calls pRecv n s = (repeat EOF n, s).
Proof.
  intros Hfin.
  assert (Hi : iRecv s = (EOF, s)) by (unfold Inline.Recv; now rewrite Hfin).
  assert (Hp : pRecv s = (EOF, s)) by (unfold Plain.Recv; now rewrite Hfin).
  repeat split; auto using calls_finished.
Qed.

(** C3, as amended.  When the line a pass has read carries, once trimmed,
    the [data: ] prefix and its payload is exactly [[DONE]], the pass sets
    the finished flag and the loop, hence [Recv], returns the zero
    response with [io.EOF]; in both variants, whatever the counter is.
    The exception is the variant with inline detection on the pass that
    follows an inline error line in the same call, the error flag being
    up: the line is read but neither trimmed nor classified, the finished
    flag stays as it was, and the call returns the outcome of the error
    check for a nil read error. *)
Theorem done_sentinel_finishes (s : StreamReader) (c : uint) raw rd :
  ReadBytes nl (Reader s) = ((raw, None), rd) ->
  is_event TrimSpace raw = true ->
  payload TrimSpace raw = doneMarker ->
  let finished := with_isFinished (with_Reader s rd) true in
  isFinished finished = true /\
  iLoop s c false = (EOF, finished) /\
  pLoop s c = (EOF, finished) /\
  (isFinished s = false ->
   iRecv s = (EOF, finished) /\ pRecv s = (EOF, finished)) /\
  iLoop s c true = ((zero, errorOutcome s None), with_Reader s rd) /\
  isFinished (with_Reader s rd) = isFinished s.
Proof.
  intros Hread Hev Hdone finished.
  assert (Hflag : iLoop s c true
                  = ((zero, errorOutcome s None), with_Reader s rd))
    by (rewrite Inline_loop_pass,
          (Inline_pass_flagged zero TrimSpace s c Hread); reflexivity).
  assert (Hi : forall c', iLoop s c' false = (EOF, finished)).
  { intros c'. rewrite Inline_loop_pass,
      (Inline_pass_event _ _ _ _ Hread Hev (done_line_not_error _ Hev Hdone)).
    rewrite Hdone. reflexivity. }
  assert (Hp : forall c', pLoop s c' = (EOF, finished)).
  { intros c'. rewrite Plain_loop_pass, (Plain_pass_event _ _ _ _ Hread Hev).
    rewrite Hdone. reflexivity. }
  split; [reflexivity|]. split; [apply Hi|]. split; [apply Hp|].
  split; [|split; [exact Hflag | reflexivity]].
  intros Hfin. split.
  - unfold Inline.Recv, Inline.processLines. rewrite Hfin. apply Hi.
  - unfold Plain.Recv, Plain.processLines. rewrite Hfin. apply Hp.
Qed.

(** C9, as amended.  When the line a pass has read carries the [data: ]
    prefix, its payload is not [[DONE]] and the decoder fails on it, the
    loop returns the decoder's error with the zero response, and the
    accumulator is neither appended to nor decoded: the session differs
    from the one before by the consumed line only.  In the variant with
    inline detection this needs the line not to start with
    [data: {"error":] and not to be read on the pass that follows an
    inline error line in the same call: on that pass, the error flag being
    up, the line is read but not classified, the decoder is not run on it
    and the call returns the outcome of the error check for a nil read
    error. *)
Theorem decode_failure_is_returned (s : StreamReader) (c : uint)
    raw rd unmarshalErr v :
  ReadBytes nl (Reader s) = ((raw, None), rd) ->
  is_event TrimSpace raw = true ->
  payload TrimSpace raw <> doneMarker ->
  Unmarshal (Unmarshaler s) (payload TrimSpace raw) = (Some unmarshalErr, v) ->
  ErrAccumulator (with_Reader s rd) = ErrAccumulator s /\
  pLoop s c = ((zero, Some unmarshalErr), with_Reader s rd) /\
  (is_inline_error TrimSpace raw = false ->
   iLoop s c false = ((zero, Some unmarshalErr), with_Reader s rd)) /\
  (isFinished s = false ->
   pRecv s = ((zero, Some unmarshalErr), with_Reader s rd) /\
   (is_inline_error TrimSpace raw = false ->
    iRecv s = ((zero, Some unmarshalErr), with_Reader s rd))) /\
  iLoop s c true = ((zero, errorOutcome s None), with_Reader s rd).
Proof.
  intros Hread Hev Hnd Hdec. apply bytes_eqb_neq in Hnd.
  assert (Hflag : iLoop s c true
                  = ((zero, errorOutcome s None), with_Reader s rd))
    by (rewrite Inline_loop_pass,
          (Inline_pass_flagged zero TrimSpace s c Hread); reflexivity).
  assert (Hp : forall c', pLoop s c' = ((zero, Some unmarshalErr), with_Reader s rd)).
  { intros c'. rewrite Plain_loop_pass, (Plain_pass_event _ _ _ _ Hread Hev).
    rewrite Hnd, Hdec. reflexivity. }
  assert (Hi : is_inline_error TrimSpace raw = false ->
               forall c', iLoop s c' false
                          = ((zero, Some unmarshalErr), with_Reader s rd)).
  { intros Hne c'.
    rewrite Inline_loop_pass, (Inline_pass_event _ _ _ _ Hread Hev Hne).
    rewrite Hnd, Hdec. reflexivity. }
  split; [reflexivity|]. split; [apply Hp|].
  split; [intros Hne; now apply Hi|]. split; [|exact Hflag].
  intros Hfin. split.
  - unfold Plain.Recv, Plain.processLines. rewrite Hfin. apply Hp.
  - intros Hne. unfold Inline.Recv, Inline.processLines. rewrite Hfin.
    now apply Hi.
Qed.

(** ** Failed reads and inline error lines *)

Lemma unmarshalError_cases (s : StreamReader) :
  let acc := Bytes (ErrAccumulator s) in
  (forall env, acc <> [] ->
     Unmarshal_errResp (Unmarshaler s) acc = (None, Some env) ->
     unmarshalError s = Some env) /\
  (acc = [] \/ is_err (fst (Unmarshal_errResp (Unmarshaler s) acc)) = true \/
   Unmarshal_errResp (Unmarshaler s) acc = (None, None) ->
   unmarshalError s = None).
Proof.
  unfold unmarshalError. cbn zeta. split.
  - intros env Hne Hdec. rewrite Hdec.
    destruct (Bytes (ErrAccumulator s)); [congruence | reflexivity].
  - intros [He | [Hf | Hn]].
    + rewrite He. reflexivity.
    + destruct (List.length _ =? 0)%nat; [reflexivity|].
      destruct (Unmarshal_errResp _ _) as [[e|] r]; [reflexivity|discriminate].
    + rewrite Hn. destruct (List.length _ =? 0)%nat; reflexivity.
Qed.

(** C2, as amended.  In a pass whose read fails with [readErr], both
    variants decode the accumulated bytes.  If the accumulator is not
    empty and decoding succeeds with an envelope, the loop returns the
    wrapped error [Errorf_w] carrying the envelope's inner detail, be the
    detail present or absent, in place of [readErr].  If the accumulator
    is empty, decoding fails, or decoding leaves the envelope nil, the
    loop returns [readErr] itself. *)
Theorem read_failure_outcome (s : StreamReader) (c : uint) (h : bool)
    raw readErr rd :
  ReadBytes nl (Reader s) = ((raw, Some readErr), rd) ->
  let acc := Bytes (ErrAccumulator s) in
  let decoded := Unmarshal_errResp (Unmarshaler s) acc in
  (forall env, acc <> [] -> decoded = (None, Some env) ->
     iLoop s c h = ((zero, Some (Errorf_w (Error env))), with_Reader s rd) /\
     pLoop s c = ((zero, Some (Errorf_w (Error env))), with_Reader s rd)) /\
  (acc = [] \/ is_err (fst decoded) = true \/ decoded = (None, None) ->
     iLoop s c h = ((zero, Some readErr), with_Reader s rd) /\
     pLoop s c = ((zero, Some readErr), with_Reader s rd)).
Proof.
  intros Hread acc decoded.
  destruct (unmarshalError_cases s) as [Hsome Hnone].
  rewrite Inline_loop_pass, Plain_loop_pass,
    (Inline_pass_read_failed _ _ _ _ _ Hread),
    (Plain_pass_read_failed _ _ _ _ Hread).
  unfold errorOutcome. split.
  - intros env Hne Hdec. rewrite (Hsome env Hne Hdec). split; reflexivity.
  - intros Hcase. rewrite (Hnone Hcase). split; reflexivity.
Qed.

(** C4, as amended.  In the variant with inline detection, a pass over a
    line whose trimmed form starts with [data: {"error":] appends the
    trimmed line without its [data: ] prefix to the accumulator and
    counts the line.  If the counter now exceeds [EmptyMessagesLimit] the
    call fails with [ErrTooManyEmptyStreamMessages].  Otherwise the pass
    continues with the error flag set, and the next pass reads one more
    line and returns the outcome of the error check, the wrapped detail
    of the envelope decoded from the accumulator or else the error of
    that read, without classifying the line: the session changes by the
    read only. *)
Theorem inline_error_line (s : StreamReader) (c : uint) raw rd :
  ReadBytes nl (Reader s) = ((raw, None), rd) ->
  is_inline_error TrimSpace raw = true ->
  let flagged := accumulated s rd (payload TrimSpace raw) in
  ErrAccumulator flagged = ErrAccumulator s ++ payload TrimSpace raw /\
  ((EmptyMessagesLimit s < uint_incr c)%N ->
   iBody s c false
   = (Return zero (Some ErrTooManyEmptyStreamMessages), flagged)) /\
  ((uint_incr c <= EmptyMessagesLimit s)%N ->
   iBody s c false = (Continue (uint_incr c, true), flagged) /\
   forall raw2 readErr2 rd2,
     ReadBytes nl rd = ((raw2, readErr2), rd2) ->
     iBody flagged (uint_incr c) true
     = (Return zero (errorOutcome flagged readErr2),
        with_Reader flagged rd2) /\
     iLoop s c false
     = ((zero, errorOutcome flagged readErr2), with_Reader flagged rd2)).
Proof.
  intros Hread Herr flagged.
  pose proof (Inline_pass_error_line zero _ s c Hread Herr) as Hpass.
  fold flagged in Hpass. split; [reflexivity|]. split.
  - intros Hlt. apply N.ltb_lt in Hlt. rewrite Hpass, Hlt. reflexivity.
  - intros Hle. apply N.ltb_ge in Hle. rewrite Hle in Hpass.
    split; [assumption|].
    intros raw2 readErr2 rd2 Hread2.
    assert (Hnext : iBody flagged (uint_incr c) true
                    = (Return zero (errorOutcome flagged readErr2),
                       with_Reader flagged rd2))
      by (apply (Inline_pass_flagged zero TrimSpace flagged _ Hread2)).
    split; [assumption|].
    rewrite Inline_loop_pass, Hpass, Inline_loop_pass, Hnext. reflexivity.
Qed.

(** C10.  In the variant with inline detection, when a line sets the
    error flag, the loop goes on (the counter stays within the limit),
    the read of the following line succeeds and the accumulated bytes
    fail to decode into an envelope, the loop returns the zero response
    with a nil error; so does [Recv] when the flagged line is the first
    line of the call. *)
Theorem flagged_undecodable_yields_zero_nil (s : StreamReader) (c : uint)
    raw rd raw2 rd2 :
  ReadBytes nl (Reader s) = ((raw, None), rd) ->
  is_inline_error TrimSpace raw = true ->
  (uint_incr c <= EmptyMessagesLimit s)%N ->
  ReadBytes nl rd = ((raw2, None), rd2) ->
  is_err (fst (Unmarshal_errResp (Unmarshaler s)
                 (ErrAccumulator s ++ payload TrimSpace raw))) = true ->
  let after := with_Reader (accumulated s rd (payload TrimSpace raw)) rd2 in
  iLoop s c false = ((zero, None), after) /\
  (isFinished s = false -> c = 0%N -> iRecv s = ((zero, None), after)).
Proof.
  intros Hread Herr Hle Hread2 Hfail after.
  set (flagged := accumulated s rd (payload TrimSpace raw)).
  assert (Hloop : iLoop s c false = ((zero, None), after)).
  { apply N.ltb_ge in Hle.
    rewrite Inline_loop_pass,
      (Inline_pass_error_line zero _ s c Hread Herr), Hle.
    fold flagged.
    rewrite Inline_loop_pass,
      (Inline_pass_flagged zero TrimSpace flagged _ Hread2).
    unfold errorOutcome.
    destruct (unmarshalError_cases flagged) as [_ Hnone].
    rewrite Hnone; [reflexivity|]. right; left. exact Hfail. }
  split; [assumption|].
  intros Hfin ->. unfold Inline.Recv, Inline.processLines.
  rewrite Hfin. exact Hloop.
Qed.

(** ** Counting and accumulating non-payload lines *)

Ltac split_pass :=
  repeat match goal with
         | |- context [if ?b then _ else _] => destruct b
         | |- context [match ?x with _ => _ end] => destruct x
         end.

Lemma Inline_pass_grows (s : StreamReader) c h :
  exists t, ErrAccumulator (snd (iBody s c h)) = ErrAccumulator s ++ t.
Proof.
  unfold Inline.loopBody, Write.
  destruct (ReadBytes nl (Reader s)) as [[raw readErr] rd].
  split_pass; cbn;
    solve [ exists []; now rewrite app_nil_r | eexists; reflexivity ].
Qed.

Lemma Plain_pass_grows (s : StreamReader) c :
  exists t, ErrAccumulator (snd (pBody s c)) = ErrAccumulator s ++ t.
Proof.
  unfold Plain.loopBody, Write.
  destruct (ReadBytes nl (Reader s)) as [[raw readErr] rd].
  split_pass; cbn;
    solve [ exists []; now rewrite app_nil_r | eexists; reflexivity ].
Qed.

Lemma Inline_loop_grows (s : StreamReader) c h :
  exists t, ErrAccumulator (snd (iLoop s c h)) = ErrAccumulator s ++ t.
Proof.
  funelim (Inline.processLinesFrom zero TrimSpace s c h).
  - destruct (Inline_pass_grows stream c h) as [t Ht].
    rewrite e in Ht. exists t. exact Ht.
  - destruct (Inline_pass_grows stream c h) as [t Ht].
    rewrite Hpass in Ht. cbn in Ht.
    destruct H as [t' Ht']. exists (t ++ t').
    rewrite Ht', Ht, app_assoc. reflexivity.
Qed.

Lemma Plain_loop_grows (s : StreamReader) c :
  exists t, ErrAccumulator (snd (pLoop s c)) = ErrAccumulator s ++ t.
Proof.
  funelim (Plain.processLinesFrom zero TrimSpace s c).
  - destruct (Plain_pass_grows stream c) as [t Ht].
    rewrite e in Ht. exists t. exact Ht.
  - destruct (Plain_pass_grows stream c) as [t Ht].
    rewrite Hpass in Ht. cbn in Ht.
    destruct H as [t' Ht']. exists (t ++ t').
    rewrite Ht', Ht, app_assoc. reflexivity.
Qed.

Lemma calls_grow
    (recv : StreamReader -> (T * option (error APIError)) * StreamReader) :
  (forall s, exists t, ErrAccumulator (snd (recv s)) = ErrAccumulator s ++ t) ->
  forall n s,
    exists t, ErrAccumulator (snd (calls recv n s)) = ErrAccumulator s ++ t.
Proof.
  intros Hrecv n. induction n as [|n IH]; intros s; simpl.
  - exists []. now rewrite app_nil_r.
  - destruct (Hrecv s) as [t Ht]. destruct (recv s) as [r s1]. cbn in Ht.
    destruct (IH s1) as [t' Ht']. destruct (calls recv n s1) as [rs s2].
    cbn in *. exists (t ++ t'). rewrite Ht', Ht, app_assoc. reflexivity.
Qed.

Lemma Inline_Recv_grows (s : StreamReader) :
  exists t, ErrAccumulator (snd (iRecv s)) = ErrAccumulator s ++ t.
Proof.
  unfold Inline.Recv, Inline.processLines. destruct (isFinished s).
  - exists []. now rewrite app_nil_r.
  - apply Inline_loop_grows.
Qed.

Lemma Plain_Recv_grows (s : StreamReader) :
  exists t, ErrAccumulator (snd (pRecv s)) = ErrAccumulator s ++ t.
Proof.
  unfold Plain.Recv, Plain.processLines. destruct (isFinished s).
  - exists []. now rewrite app_nil_r.
  - apply Plain_loop_grows.
Qed.

Lemma Inline_loop_skip (s : StreamReader) c raw rd :
  ReadBytes nl (Reader s) = ((raw, None), rd) ->
  is_event TrimSpace raw = false ->
  (uint_incr c <= EmptyMessagesLimit s)%N ->
  iBody s c false
  = (Continue (uint_incr c, false), accumulated s rd (TrimSpace raw)) /\
  iLoop s c false
  = iLoop (accumulated s rd (TrimSpace raw)) (uint_incr c) false.
Proof.
  intros Hread Hev Hle. apply N.ltb_ge in Hle.
  pose proof (Inline_pass_non_payload zero _ s c Hread Hev) as Hpass.
  rewrite Hle in Hpass. split; [assumption|].
  rewrite Inline_loop_pass, Hpass. reflexivity.
Qed.

Lemma Inline_loop_too_many (s : StreamReader) c raw rd :
  ReadBytes nl (Reader s) = ((raw, None), rd) ->
  is_event TrimSpace raw = false ->
  (EmptyMessagesLimit s < uint_incr c)%N ->
  iLoop s c false
  = ((zero, Some ErrTooManyEmptyStreamMessages),
     accumulated s rd (TrimSpace raw)).
Proof.
  intros Hread Hev Hlt. apply N.ltb_lt in Hlt.
  rewrite Inline_loop_pass, (Inline_pass_non_payload zero _ s c Hread Hev).
  rewrite Hlt. reflexivity.
Qed.

Lemma Plain_loop_skip (s : StreamReader) c raw rd :
  ReadBytes nl (Reader s) = ((raw, None), rd) ->
  is_event TrimSpace raw = false ->
  (uint_incr c <= EmptyMessagesLimit s)%N ->
  pBody s c = (Continue (uint_incr c), accumulated s rd (TrimSpace raw)) /\
  pLoop s c = pLoop (accumulated s rd (TrimSpace raw)) (uint_incr c).
Proof.
  intros Hread Hev Hle. apply N.ltb_ge in Hle.
  pose proof (Plain_pass_non_payload zero _ s c Hread Hev) as Hpass.
  rewrite Hle in Hpass. split; [assumption|].
  rewrite Plain_loop_pass, Hpass. reflexivity.
Qed.

Lemma Plain_loop_too_many (s : StreamReader) c raw rd :
  ReadBytes nl (Reader s) = ((raw, None), rd) ->
  is_event TrimSpace raw = false ->
  (EmptyMessagesLimit s < uint_incr c)%N ->
  pLoop s c
  = ((zero, Some ErrTooManyEmptyStreamMessages),
     accumulated s rd (TrimSpace raw)).
Proof.
  intros Hread Hev Hlt. apply N.ltb_lt in Hlt.
  rewrite Plain_loop_pass, (Plain_pass_non_payload zero _ s c Hread Hev).
  rewrite Hlt. reflexivity.
Qed.


(** C8, as amended.  A pass over a line whose trimmed form lacks the
    [data: ] prefix appends the trimmed line to the accumulator, in both
    variants.  The loop then goes on to the next line when the
    incremented counter does not exceed [EmptyMessagesLimit]; when it
    does, the call fails with [ErrTooManyEmptyStreamMessages], the line
    still appended.  The exception is the variant with inline detection
    on the pass that follows an inline error line in the same call, the
    error flag being up: the line is read but neither classified, appended
    nor counted, and the call returns the outcome of the error check for a
    nil read error.  Over any number of calls the accumulator only grows:
    its content before is a prefix of its content after. *)
Theorem non_payload_line_is_accumulated :
  (forall (s : StreamReader) (c : uint) raw rd,
      ReadBytes nl (Reader s) = ((raw, None), rd) ->
      is_event TrimSpace raw = false ->
      let kept := accumulated s rd (TrimSpace raw) in
      ErrAccumulator kept = ErrAccumulator s ++ TrimSpace raw /\
      snd (iBody s c false) = kept /\ snd (pBody s c) = kept /\
      ((uint_incr c <= EmptyMessagesLimit s)%N ->
       iLoop s c false = iLoop kept (uint_incr c) false /\
       pLoop s c = pLoop kept (uint_incr c)) /\
      ((EmptyMessagesLimit s < uint_incr c)%N ->
       iLoop s c false
       = ((zero, Some ErrTooManyEmptyStreamMessages), kept) /\
       pLoop s c = ((zero, Some ErrTooManyEmptyStreamMessages), kept)) /\
      iLoop s c true = ((zero, errorOutcome s None), with_Reader s rd) /\
      ErrAccumulator (with_Reader s rd) = ErrAccumulator s) /\
  (forall (s : StreamReader) (n : nat),
      (exists t, ErrAccumulator (snd (calls iRecv n s))
                 = ErrAccumulator s ++ t) /\
      (exists t, ErrAccumulator (snd (calls pRecv n s))
                 = ErrAccumulator s ++ t)).
Proof.
  split.
  - intros s c raw rd Hread Hev kept.
    split; [reflexivity|]. split; [|split; [|split; [|split; [|split]]]].
    + rewrite (Inline_pass_non_payload zero _ s c Hread Hev). reflexivity.
    + rewrite (Plain_pass_non_payload zero _ s c Hread Hev). reflexivity.
    + intros Hle. split.
      * apply (Inline_loop_skip s c Hread Hev Hle).
      * apply (Plain_loop_skip s c Hread Hev Hle).
    + intros Hlt. split.
      * apply (Inline_loop_too_many s c Hread Hev Hlt).
      * apply (Plain_loop_too_many s c Hread Hev Hlt).
    + rewrite Inline_loop_pass,
        (Inline_pass_flagged zero TrimSpace s c Hread). reflexivity.
    + reflexivity.
  - intros s n. split.
    + apply (calls_grow iRecv Inline_Recv_grows).
    + apply (calls_grow pRecv Plain_Recv_grows).
Qed.

(** ** The two variants on bodies without inline error lines *)

Lemma no_inline_error_cut (body line rest : bytes) :
  cut nl body = Some (line, rest) ->
  no_inline_error TrimSpace body = true ->
  is_inline_error TrimSpace line = false /\
  no_inline_error TrimSpace rest = true.
Proof.
  intros Hcut. unfold no_inline_error. rewrite (lines_cut body), Hcut.
  cbn [forallb]. rewrite andb_true_iff, negb_true_iff. tauto.
Qed.

Lemma no_inline_error_nil : no_inline_error TrimSpace [] = true.
Proof. unfold no_inline_error. rewrite lines_cut. reflexivity. Qed.

Lemma no_inline_error_read (r : bufio_Reader APIError) :
  no_inline_error TrimSpace (pending r) = true ->
  no_inline_error TrimSpace (pending (snd (ReadBytes nl r))) = true.
Proof.
  intros Hclean. unfold ReadBytes.
  destruct (cut nl (pending r)) as [[line rest]|] eqn:Hcut; cbn.
  - apply (no_inline_error_cut _ Hcut Hclean).
  - apply no_inline_error_nil.
Qed.

Lemma Plain_pass_Reader (s : StreamReader) c :
  Reader (snd (pBody s c)) = snd (ReadBytes nl (Reader s)).
Proof.
  unfold Plain.loopBody, Write.
  destruct (ReadBytes nl (Reader s)) as [[raw readErr] rd].
  split_pass; reflexivity.
Qed.

(** On a line that is no inline error line, and on a failed read, a pass
    of the variant with detection, entered with the flag down, does what
    the pass of the other variant does and leaves the flag down. *)
Lemma passes_agree (s : StreamReader) c :
  no_inline_error TrimSpace (pending (Reader s)) = true ->
  iBody s c false =
  (match fst (pBody s c) with
   | Return response err => Return response err
   | Continue c' => Continue (c', false)
   end, snd (pBody s c)).
Proof.
  intros Hclean.
  destruct (ReadBytes nl (Reader s)) as [[raw [e|]] rd] eqn:Hread.
  - rewrite (Inline_pass_read_failed zero _ s c false Hread),
      (Plain_pass_read_failed zero _ s c Hread). reflexivity.
  - destruct (no_inline_error_cut _ (ReadBytes_ok_cut _ Hread) Hclean)
      as [Hne _].
    destruct (is_event TrimSpace raw) eqn:Hev.
    + rewrite (Inline_pass_event zero _ s c Hread Hev Hne),
        (Plain_pass_event zero _ s c Hread Hev).
      destruct (bytes_eqb _ _); [reflexivity|].
      destruct (Unmarshal _ _) as [[e|] response]; reflexivity.
    + rewrite (Inline_pass_non_payload zero _ s c Hread Hev),
        (Plain_pass_non_payload zero _ s c Hread Hev).
      destruct (_ <? _)%N; reflexivity.
Qed.

Lemma loops_agree (s : StreamReader) c :
  no_inline_error TrimSpace (pending (Reader s)) = true ->
  iLoop s c false = pLoop s c /\
  no_inline_error TrimSpace (pending (Reader (snd (pLoop s c)))) = true.
Proof.
  funelim (Plain.processLinesFrom zero TrimSpace s c); intros Hclean;
    pose proof (no_inline_error_read _ Hclean) as Hnext;
    rewrite <- Plain_pass_Reader with (c := c) in Hnext;
    rewrite Inline_loop_pass, (passes_agree _ _ Hclean).
  - rewrite e in *. cbn in *. split; [reflexivity | assumption].
  - rewrite Hpass in *. cbn in *. now apply H.
Qed.

Lemma Recvs_agree (s : StreamReader) :
  no_inline_error TrimSpace (pending (Reader s)) = true ->
  iRecv s = pRecv s /\
  no_inline_error TrimSpace (pending (Reader (snd (pRecv s)))) = true.
Proof.
  intros Hclean. unfold Inline.Recv, Plain.Recv.
  unfold Inline.processLines, Plain.processLines.
  destruct (isFinished s).
  - split; [reflexivity | assumption].
  - now apply loops_agree.
Qed.

(** C6.  On a body none of whose complete lines, once trimmed, starts
    with [data: {"error":], the two variants return the same results
    over any number of successive [Recv] calls and leave the same
    session, its accumulator included. *)
Theorem variants_agree_without_inline_errors (s : StreamReader) (n : nat) :
  no_inline_error TrimSpace (pending (Reader s)) = true ->
  calls iRecv n s = calls pRecv n s /\
  ErrAccumulator (snd (calls iRecv n s))
  = ErrAccumulator (snd (calls pRecv n s)).
Proof.
  intros Hclean.
  enough (E : calls iRecv n s = calls pRecv n s) by (now rewrite E).
  revert s Hclean. induction n as [|n IH]; intros s Hclean; simpl.
  - reflexivity.
  - destruct (Recvs_agree s Hclean) as [-> Hnext].
    destruct (pRecv s) as [r s1]. cbn in Hnext.
    rewrite (IH s1 Hnext). reflexivity.
Qed.

(** ** Compliant streams *)

Lemma Plain_Recv_event (s : StreamReader) l v rest :
  isFinished s = false ->
  pending (Reader s) = l ++ rest ->
  event_line TrimSpace (Unmarshaler s) l v ->
  pRecv s
  = ((v, None),
     with_Reader s {| pending := rest; failure := failure (Reader s);
                      reads := S (reads (Reader s)) |}).
Proof.
  intros Hfin Hpend (Hl & Hev & Hnd & Hdec).
  pose proof (ReadBytes_line (Reader s) rest Hl Hpend) as Hread.
  unfold Plain.Recv, Plain.processLines. rewrite Hfin.
  rewrite Plain_loop_pass, (Plain_pass_event zero _ s _ Hread Hev).
  rewrite Hnd, Hdec. reflexivity.
Qed.

Lemma Inline_Recv_event (s : StreamReader) l v rest :
  isFinished s = false ->
  pending (Reader s) = l ++ rest ->
  event_line TrimSpace (Unmarshaler s) l v /\
  is_inline_error TrimSpace l = false ->
  iRecv s
  = ((v, None),
     with_Reader s {| pending := rest; failure := failure (Reader s);
                      reads := S (reads (Reader s)) |}).
Proof.
  intros Hfin Hpend [(Hl & Hev & Hnd & Hdec) Hne].
  pose proof (ReadBytes_line (Reader s) rest Hl Hpend) as Hread.
  unfold Inline.Recv, Inline.processLines. rewrite Hfin.
  rewrite Inline_loop_pass, (Inline_pass_event zero _ s _ Hread Hev Hne).
  rewrite Hnd, Hdec. reflexivity.
Qed.

Lemma Plain_Recv_done (s : StreamReader) d rest :
  isFinished s = false ->
  pending (Reader s) = d ++ rest ->
  done_line TrimSpace d ->
  exists fin, pRecv s = (EOF, fin) /\ isFinished fin = true.
Proof.
  intros Hfin Hpend (Hl & Hev & Hdone).
  pose proof (ReadBytes_line (Reader s) rest Hl Hpend) as Hread.
  unfold Plain.Recv, Plain.processLines. rewrite Hfin.
  rewrite Plain_loop_pass, (Plain_pass_event zero _ s _ Hread Hev).
  rewrite Hdone. cbn. eexists. split; reflexivity.
Qed.

Lemma Inline_Recv_done (s : StreamReader) d rest :
  isFinished s = false ->
  pending (Reader s) = d ++ rest ->
  done_line TrimSpace d ->
  exists fin, iRecv s = (EOF, fin) /\ isFinished fin = true.
Proof.
  intros Hfin Hpend (Hl & Hev & Hdone).
  pose proof (ReadBytes_line (Reader s) rest Hl Hpend) as Hread.
  unfold Inline.Recv, Inline.processLines. rewrite Hfin.
  rewrite Inline_loop_pass,
    (Inline_pass_event zero _ s _ Hread Hev
       (done_line_not_error _ Hev Hdone)).
  rewrite Hdone. cbn. eexists. split; reflexivity.
Qed.

Section Roundtrip.

(** A receive operation that returns the value of an acceptable event
    line, finishes on the closing line and stays finished. *)
Variable recv : StreamReader -> (T * option (error APIError)) * StreamReader.
Variable acceptable : Unmarshaler_ T APIError -> bytes -> T -> Prop.

Hypothesis recv_event : forall (s : StreamReader) l v rest,
  isFinished s = false ->
  pending (Reader s) = l ++ rest ->
  acceptable (Unmarshaler s) l v ->
  recv s
  = ((v, None),
     with_Reader s {| pending := rest; failure := failure (Reader s);
                      reads := S (reads (Reader s)) |}).

Hypothesis recv_done : forall (s : StreamReader) d rest,
  isFinished s = false ->
  pending (Reader s) = d ++ rest ->
  done_line TrimSpace d ->
  exists fin, recv s = (EOF, fin) /\ isFinished fin = true.

Hypothesis recv_finished : forall s : StreamReader,
  isFinished s = true -> recv s = (EOF, s).

Lemma roundtrip (u : Unmarshaler_ T APIError) (evs : list (bytes * T))
    (d rest : bytes) :
  Forall (fun ev => acceptable u (fst ev) (snd ev)) evs ->
  done_line TrimSpace d ->
  forall (s : StreamReader) (j : nat),
    Unmarshaler s = u ->
    isFinished s = false ->
    pending (Reader s) = List.concat (map fst evs) ++ d ++ rest ->
    fst (calls recv j s) = expected zero evs j /\
    isFinished (snd (calls recv j s)) = (List.length evs <? j)%nat.
Proof.
  intros Hevs Hd. induction Hevs as [|[l v] evs Hev _ IH];
    intros s [|j] Hu Hfin Hpend; unfold expected; cbn [calls fst snd].
  - split; [reflexivity | assumption].
  - destruct (recv_done s rest Hfin Hpend Hd) as (fin & -> & Hfinished).
    rewrite (calls_finished recv (recv_finished fin Hfinished)).
    cbn. split; [reflexivity | assumption].
  - split; [reflexivity | assumption].
  - cbn [map List.concat fst] in Hpend. rewrite <- app_assoc in Hpend.
    cbn [fst snd] in Hev. rewrite <- Hu in Hev.
    rewrite (recv_event s _ Hfin Hpend Hev).
    match goal with |- context [calls recv j ?s1] =>
      destruct (IH s1 j Hu Hfin eq_refl) as [Hres Hflag];
      destruct (calls recv j s1) as [rs s2] end.
    cbn in *. rewrite Hres, Hflag. unfold expected. split; reflexivity.
Qed.

End Roundtrip.

(** C7, as amended.  Let the body start with the lines of events, each a
    terminated line with the [data: ] prefix whose payload is not
    [[DONE]] and decodes to its value, followed by the closing line
    [data: [DONE]].  Then the first [j] calls of [Recv] return the
    decoded values in order, one per call, and [io.EOF] from the call
    after the last event on; the finished flag is down after each of the
    first [length evs] calls and up after every later one, so it is
    raised by exactly one call.  The variant without inline detection
    does so for every such body; the variant with it does so when no
    event line starts with [data: {"error":]. *)
Theorem compliant_stream_roundtrip (s : StreamReader)
    (evs : list (bytes * T)) (d rest : bytes) (j : nat) :
  isFinished s = false ->
  pending (Reader s) = List.concat (map fst evs) ++ d ++ rest ->
  Forall (fun ev => event_line TrimSpace (Unmarshaler s) (fst ev) (snd ev))
         evs ->
  done_line TrimSpace d ->
  (fst (calls pRecv j s) = expected zero evs j /\
   isFinished (snd (calls pRecv j s)) = (List.length evs <? j)%nat) /\
  (Forall (fun ev => is_inline_error TrimSpace (fst ev) = false) evs ->
   fst (calls iRecv j s) = expected zero evs j /\
   isFinished (snd (calls iRecv j s)) = (List.length evs <? j)%nat).
Proof.
  intros Hfin Hpend Hevs Hd. split.
  - apply (roundtrip pRecv (fun u l v => event_line TrimSpace u l v)
             Plain_Recv_event Plain_Recv_done) with (u := Unmarshaler s)
                                                  (d := d) (rest := rest);
      auto.
    intros s' Hf. unfold Plain.Recv. now rewrite Hf.
  - intros Hclean.
    apply (roundtrip iRecv
             (fun u l v => event_line TrimSpace u l v
                           /\ is_inline_error TrimSpace l = false)
             Inline_Recv_event Inline_Recv_done) with (u := Unmarshaler s)
                                                    (d := d) (rest := rest);
      auto.
    + intros s' Hf. unfold Inline.Recv. now rewrite Hf.
    + rewrite Forall_forall in *. intros ev Hin. split; auto.
Qed.

End Claims.

(** * Closed examples *)

Section Examples.

Import Sample.

#[local] Abbreviation iRecv := (Inline.Recv zero TrimSpace_ascii).
#[local] Abbreviation pRecv := (Plain.Recv zero TrimSpace_ascii).
#[local] Abbreviation iLoop := (Inline.processLinesFrom zero TrimSpace_ascii).
#[local] Abbreviation pLoop := (Plain.processLinesFrom zero TrimSpace_ascii).

(** C1 at the session left by reading [data: [DONE]]. *)
Lemma finished_recv_is_eof_without_read_witness :
  isFinished drained = true /\
  iRecv drained = ((zero, Some io_EOF), drained) /\
  calls pRecv 3 drained = (repeat (zero, Some io_EOF) 3, drained).
Proof.
  assert (H : isFinished drained = true) by reflexivity.
  destruct (finished_recv_is_eof_without_read zero TrimSpace_ascii drained H)
    as (Hi & _ & Hn).
  split; [exact H|]. split; [exact Hi|]. exact (proj2 (Hn 3%nat)).
Defined.

(** C3, as amended, at a body that holds the closing line only. *)
Lemma done_sentinel_finishes_witness :
  ReadBytes nl (Reader done_only)
  = ((lit done_text, None), after_first_line done_only) /\
  is_event TrimSpace_ascii (lit done_text) = true /\
  payload TrimSpace_ascii (lit done_text) = doneMarker /\
  iRecv done_only
  = ((zero, Some io_EOF),
     with_isFinished (with_Reader done_only (after_first_line done_only))
       true).
Proof.
  assert (H1 : ReadBytes nl (Reader done_only)
               = ((lit done_text, None), after_first_line done_only))
    by reflexivity.
  assert (H2 : is_event TrimSpace_ascii (lit done_text) = true)
    by reflexivity.
  assert (H3 : payload TrimSpace_ascii (lit done_text) = doneMarker)
    by reflexivity.
  destruct (done_sentinel_finishes zero TrimSpace_ascii done_only 0%N
              H1 H2 H3) as (_ & _ & _ & HR & _).
  exact (conj H1 (conj H2 (conj H3 (proj1 (HR eq_refl))))).
Defined.

(** C3 as stated fails in the variant with inline detection: after the
    line [data: {"error":oops] the same call reads the closing line, which
    carries the prefix and whose payload is the sentinel, yet the finished
    flag stays down and [Recv] returns a nil error instead of [io.EOF]. *)
Lemma done_line_after_inline_error_is_dropped :
  ReadBytes nl (after_first_line broken_error)
  = ((lit done_text, None),
     {| pending := []; failure := io_EOF; reads := 2 |}) /\
  is_event TrimSpace_ascii (lit done_text) = true /\
  payload TrimSpace_ascii (lit done_text) = doneMarker /\
  fst (iRecv broken_error) = (zero, None) /\
  fst (iRecv broken_error) <> (zero, Some io_EOF) /\
  isFinished (snd (iRecv broken_error)) = false /\
  Reader (snd (iRecv broken_error))
  = {| pending := []; failure := io_EOF; reads := 2 |}.
Proof.
  repeat split; try reflexivity; try discriminate.
Qed.

(** C9, as amended, at the line [data: {not valid json]. *)
Lemma decode_failure_is_returned_witness :
  ReadBytes nl (Reader broken_event)
  = ((lit broken_event_text, None), after_first_line broken_event) /\
  is_event TrimSpace_ascii (lit broken_event_text) = true /\
  payload TrimSpace_ascii (lit broken_event_text) <> doneMarker /\
  Unmarshal json (payload TrimSpace_ascii (lit broken_event_text))
  = (Some syntax_error, zero) /\
  pRecv broken_event
  = ((zero, Some syntax_error),
     with_Reader broken_event (after_first_line broken_event)) /\
  iRecv broken_event
  = ((zero, Some syntax_error),
     with_Reader broken_event (after_first_line broken_event)).
Proof.
  assert (H1 : ReadBytes nl (Reader broken_event)
               = ((lit broken_event_text, None),
                  after_first_line broken_event)) by reflexivity.
  assert (H2 : is_event TrimSpace_ascii (lit broken_event_text) = true)
    by reflexivity.
  assert (H3 : payload TrimSpace_ascii (lit broken_event_text)
               <> doneMarker) by (apply bytes_eqb_neq; reflexivity).
  assert (H4 : Unmarshal json
                 (payload TrimSpace_ascii (lit broken_event_text))
               = (Some syntax_error, zero)) by reflexivity.
  destruct (decode_failure_is_returned zero TrimSpace_ascii broken_event 0%N
              H1 H2 H3 H4) as (_ & _ & _ & HR & _).
  destruct (HR eq_refl) as [Hp Hi].
  exact (conj H1 (conj H2 (conj H3 (conj H4 (conj Hp (Hi eq_refl)))))).
Defined.

(** C9 as stated fails in the variant with inline detection, in two
    ways.  The line [data: {"error":oops] carries the prefix, its payload
    is not the sentinel and the decoder rejects it, yet [Recv] appends the
    payload to the accumulator and, the next read succeeding, returns a
    nil error instead of the decoder's.  And the line
    [data: {not valid json], read in the same call after an inline error
    line, is not given to the decoder: [Recv] returns the wrapped detail
    of the error line. *)
Lemma broken_inline_error_is_accumulated :
  (is_event TrimSpace_ascii (first_line broken_error) = true /\
   payload TrimSpace_ascii (first_line broken_error) <> doneMarker /\
   Unmarshal json (payload TrimSpace_ascii (first_line broken_error))
   = (Some syntax_error, zero) /\
   fst (iRecv broken_error) = (zero, None) /\
   fst (iRecv broken_error) <> (zero, Some syntax_error) /\
   ErrAccumulator (snd (iRecv broken_error))
   = payload TrimSpace_ascii (first_line broken_error) /\
   ErrAccumulator (snd (iRecv broken_error))
   <> ErrAccumulator broken_error) /\
  (ReadBytes nl (after_first_line MoreSamples.event_after_error)
   = ((lit broken_event_text, None),
      {| pending := []; failure := io_EOF; reads := 2 |}) /\
   is_event TrimSpace_ascii (lit broken_event_text) = true /\
   is_inline_error TrimSpace_ascii (lit broken_event_text) = false /\
   payload TrimSpace_ascii (lit broken_event_text) <> doneMarker /\
   Unmarshal json (payload TrimSpace_ascii (lit broken_event_text))
   = (Some syntax_error, zero) /\
   fst (iRecv MoreSamples.event_after_error)
   = (zero, Some (Errorf_w (Some error_detail))) /\
   fst (iRecv MoreSamples.event_after_error) <> (zero, Some syntax_error) /\
   Reader (snd (iRecv MoreSamples.event_after_error))
   = {| pending := []; failure := io_EOF; reads := 2 |}).
Proof.
  repeat split; try reflexivity; try discriminate.
Qed.

(** C2, as amended, at an exhausted body with the server's error body in
    the accumulator: the wrapped detail replaces [io.EOF]. *)
Lemma read_failure_outcome_witness :
  ReadBytes nl (Reader exhausted)
  = (([], Some io_EOF), after_first_line exhausted) /\
  Bytes (ErrAccumulator exhausted) <> [] /\
  Unmarshal_errResp json (Bytes (ErrAccumulator exhausted))
  = (None, Some {| Error := Some error_detail |}) /\
  iLoop exhausted 0%N false
  = ((zero, Some (Errorf_w (Some error_detail))),
     with_Reader exhausted (after_first_line exhausted)) /\
  pLoop exhausted 0%N
  = ((zero, Some (Errorf_w (Some error_detail))),
     with_Reader exhausted (after_first_line exhausted)).
Proof.
  assert (H1 : ReadBytes nl (Reader exhausted)
               = (([], Some io_EOF), after_first_line exhausted))
    by reflexivity.
  assert (H2 : Bytes (ErrAccumulator exhausted) <> []) by discriminate.
  assert (H3 : Unmarshal_errResp json (Bytes (ErrAccumulator exhausted))
               = (None, Some {| Error := Some error_detail |}))
    by reflexivity.
  destruct (read_failure_outcome zero TrimSpace_ascii exhausted 0%N false H1)
    as [Hwrapped _].
  exact (conj H1 (conj H2 (conj H3 (Hwrapped _ H2 H3)))).
Defined.

(** C2 as stated fails: after the line [{}] the accumulator decodes to
    an envelope without inner detail, and when the next read ends in
    [io.EOF] both variants return the wrapped error with an absent detail
    rather than [io.EOF]. *)
Lemma envelope_without_detail_is_wrapped :
  failure (Reader bare_object) = io_EOF /\
  Unmarshal_errResp json (lit "{}") = (None, Some {| Error := None |}) /\
  ErrAccumulator (snd (iRecv bare_object)) = lit "{}" /\
  fst (iRecv bare_object) = (zero, Some (Errorf_w None)) /\
  fst (pRecv bare_object) = (zero, Some (Errorf_w None)) /\
  fst (iRecv bare_object) <> (zero, Some io_EOF) /\
  fst (pRecv bare_object) <> (zero, Some io_EOF).
Proof.
  repeat split; try reflexivity; try discriminate.
Qed.

(** C4, as amended, at an inline error line followed by the closing
    line, with a limit of 2: the closing line is read and not classified,
    and the call returns the wrapped detail. *)
Lemma inline_error_line_witness :
  ReadBytes nl (Reader inline_error)
  = ((lit inline_error_text, None), after_first_line inline_error) /\
  is_inline_error TrimSpace_ascii (lit inline_error_text) = true /\
  ErrAccumulator (snd (iLoop inline_error 0%N false)) = error_body /\
  fst (iLoop inline_error 0%N false)
  = (zero, Some (Errorf_w (Some error_detail))) /\
  reads (Reader (snd (iLoop inline_error 0%N false))) = 2%nat /\
  isFinished (snd (iLoop inline_error 0%N false)) = false.
Proof.
  assert (H1 : ReadBytes nl (Reader inline_error)
               = ((lit inline_error_text, None),
                  after_first_line inline_error)) by reflexivity.
  assert (H2 : is_inline_error TrimSpace_ascii (lit inline_error_text)
               = true) by reflexivity.
  destruct (inline_error_line zero TrimSpace_ascii inline_error 0%N H1 H2)
    as (_ & _ & Hgo).
  assert (Hle : (uint_incr 0 <= EmptyMessagesLimit inline_error)%N)
    by (apply N.leb_le; reflexivity).
  destruct (Hgo Hle) as [_ Hnext].
  destruct (Hnext (lit done_text) None
              {| pending := []; failure := io_EOF; reads := 2 |} eq_refl)
    as [_ Hloop].
  rewrite Hloop.
  exact (conj H1 (conj H2 (conj eq_refl (conj eq_refl
           (conj eq_refl eq_refl))))).
Defined.

(** C4 as stated fails: with a limit of 0 the inline error line itself
    exceeds the limit, [Recv] fails with [ErrTooManyEmptyStreamMessages]
    after that one read, and no pass takes the error check. *)
Lemma inline_error_line_can_exceed_limit :
  is_inline_error TrimSpace_ascii (first_line inline_error_no_tolerance)
  = true /\
  fst (iRecv inline_error_no_tolerance)
  = (zero, Some ErrTooManyEmptyStreamMessages) /\
  reads (Reader (snd (iRecv inline_error_no_tolerance))) = 1%nat /\
  pending (Reader (snd (iRecv inline_error_no_tolerance))) = lit done_text /\
  fst (iRecv inline_error_no_tolerance)
  <> (zero, Some (Errorf_w (Some error_detail))).
Proof.
  repeat split; try reflexivity; try discriminate.
Qed.

(** C10 at the line [data: {"error":oops] followed by the closing line. *)
Lemma flagged_undecodable_yields_zero_nil_witness :
  ReadBytes nl (Reader broken_error)
  = ((lit broken_error_text, None), after_first_line broken_error) /\
  is_inline_error TrimSpace_ascii (lit broken_error_text) = true /\
  (uint_incr 0 <= EmptyMessagesLimit broken_error)%N /\
  ReadBytes nl (after_first_line broken_error)
  = ((lit done_text, None),
     {| pending := []; failure := io_EOF; reads := 2 |}) /\
  is_err (fst (Unmarshal_errResp json
                 (ErrAccumulator broken_error
                  ++ payload TrimSpace_ascii (lit broken_error_text))))
  = true /\
  fst (iRecv broken_error) = (zero, None).
Proof.
  assert (H1 : ReadBytes nl (Reader broken_error)
               = ((lit broken_error_text, None),
                  after_first_line broken_error)) by reflexivity.
  assert (H2 : is_inline_error TrimSpace_ascii (lit broken_error_text)
               = true) by reflexivity.
  assert (H3 : (uint_incr 0 <= EmptyMessagesLimit broken_error)%N)
    by (apply N.leb_le; reflexivity).
  assert (H4 : ReadBytes nl (after_first_line broken_error)
               = ((lit done_text, None),
                  {| pending := []; failure := io_EOF; reads := 2 |}))
    by reflexivity.
  assert (H5 : is_err (fst (Unmarshal_errResp (Unmarshaler broken_error)
                 (ErrAccumulator broken_error
                  ++ payload TrimSpace_ascii (lit broken_error_text))))
               = true) by reflexivity.
  destruct (flagged_undecodable_yields_zero_nil zero TrimSpace_ascii
              broken_error 0%N H1 H2 H3 H4 H5) as [_ HR].
  rewrite (HR eq_refl eq_refl).
  exact (conj H1 (conj H2 (conj H3 (conj H4 (conj H5 eq_refl))))).
Defined.


(** C8, as amended, at a comment line before the closing line. *)
Lemma non_payload_line_is_accumulated_witness :
  ReadBytes nl (Reader comment_first)
  = ((lit (": keep-alive" ++ lf), None), after_first_line comment_first) /\
  is_event TrimSpace_ascii (lit (": keep-alive" ++ lf)) = false /\
  (uint_incr 0 <= EmptyMessagesLimit comment_first)%N /\
  ErrAccumulator (snd (Plain.loopBody zero TrimSpace_ascii comment_first 0%N))
  = lit ": keep-alive" /\
  pLoop comment_first 0%N
  = pLoop (accumulated comment_first (after_first_line comment_first)
             (lit ": keep-alive")) (uint_incr 0%N).
Proof.
  assert (H1 : ReadBytes nl (Reader comment_first)
               = ((lit (": keep-alive" ++ lf), None),
                  after_first_line comment_first)) by reflexivity.
  assert (H2 : is_event TrimSpace_ascii (lit (": keep-alive" ++ lf))
               = false) by reflexivity.
  assert (H3 : (uint_incr 0 <= EmptyMessagesLimit comment_first)%N)
    by (apply N.leb_le; reflexivity).
  destruct (proj1 (non_payload_line_is_accumulated zero TrimSpace_ascii)
              comment_first 0%N _ _ H1 H2)
    as (_ & _ & Hkept & Hgo & _ & _ & _).
  rewrite Hkept.
  exact (conj H1 (conj H2 (conj H3 (conj eq_refl (proj2 (Hgo H3)))))).
Defined.

(** C8 as stated fails, in two ways.  With a limit of 0 a blank line is
    appended and counted, and [Recv] fails with
    [ErrTooManyEmptyStreamMessages] instead of going on to the closing
    line, which stays unread.  And in the variant with inline detection a
    comment line read in the same call after the line
    [data: {"error":oops] is discarded: the accumulator holds the payload
    of the error line only, and the call returns without reading the
    closing line. *)
Lemma non_payload_line_can_end_the_call :
  (is_event TrimSpace_ascii (first_line blank_no_tolerance) = false /\
   fst (pRecv blank_no_tolerance)
   = (zero, Some ErrTooManyEmptyStreamMessages) /\
   fst (iRecv blank_no_tolerance)
   = (zero, Some ErrTooManyEmptyStreamMessages) /\
   reads (Reader (snd (pRecv blank_no_tolerance))) = 1%nat /\
   reads (Reader (snd (iRecv blank_no_tolerance))) = 1%nat /\
   pending (Reader (snd (pRecv blank_no_tolerance))) = lit done_text /\
   pending (Reader (snd (iRecv blank_no_tolerance))) = lit done_text) /\
  (ReadBytes nl (after_first_line MoreSamples.comment_after_error)
   = ((lit (": keep-alive" ++ lf), None),
      {| pending := lit done_text; failure := io_EOF; reads := 2 |}) /\
   is_event TrimSpace_ascii (lit (": keep-alive" ++ lf)) = false /\
   fst (iRecv MoreSamples.comment_after_error) = (zero, None) /\
   ErrAccumulator (snd (iRecv MoreSamples.comment_after_error))
   = payload TrimSpace_ascii (lit broken_error_text) /\
   ErrAccumulator (snd (iRecv MoreSamples.comment_after_error))
   <> payload TrimSpace_ascii (lit broken_error_text)
      ++ lit ": keep-alive" /\
   Reader (snd (iRecv MoreSamples.comment_after_error))
   = {| pending := lit done_text; failure := io_EOF; reads := 2 |}).
Proof.
  repeat split; try reflexivity; try discriminate.
Qed.

(** C6 at a compliant body, over three calls. *)
Lemma variants_agree_without_inline_errors_witness :
  no_inline_error TrimSpace_ascii (pending (Reader compliant)) = true /\
  calls iRecv 3 compliant = calls pRecv 3 compliant.
Proof.
  assert (H : no_inline_error TrimSpace_ascii (pending (Reader compliant))
              = true) by (vm_compute; reflexivity).
  exact (conj H (proj1 (variants_agree_without_inline_errors
                          zero TrimSpace_ascii compliant 3 H))).
Defined.

(** C7, as amended, at one event followed by the closing line, over
    three calls. *)
Lemma compliant_stream_roundtrip_witness :
  isFinished compliant = false /\
  pending (Reader compliant)
  = List.concat (map fst [(lit event_text, event_value)])
    ++ lit done_text ++ [] /\
  event_line TrimSpace_ascii json (lit event_text) event_value /\
  done_line TrimSpace_ascii (lit done_text) /\
  is_inline_error TrimSpace_ascii (lit event_text) = false /\
  fst (calls pRecv 3 compliant)
  = [(event_value, None); (zero, Some io_EOF); (zero, Some io_EOF)] /\
  fst (calls iRecv 3 compliant)
  = [(event_value, None); (zero, Some io_EOF); (zero, Some io_EOF)] /\
  isFinished (snd (calls iRecv 1 compliant)) = false /\
  isFinished (snd (calls iRecv 2 compliant)) = true.
Proof.
  assert (H1 : isFinished compliant = false) by reflexivity.
  assert (H2 : pending (Reader compliant)
               = List.concat (map fst [(lit event_text, event_value)])
                 ++ lit done_text ++ []) by reflexivity.
  assert (H3 : event_line TrimSpace_ascii json (lit event_text) event_value)
    by (repeat split; reflexivity).
  assert (H4 : done_line TrimSpace_ascii (lit done_text))
    by (repeat split; reflexivity).
  assert (H5 : is_inline_error TrimSpace_ascii (lit event_text) = false)
    by reflexivity.
  assert (H6 : Forall (fun ev => event_line TrimSpace_ascii
                                   (Unmarshaler compliant) (fst ev) (snd ev))
                      [(lit event_text, event_value)])
    by (constructor; [exact H3 | constructor]).
  assert (H7 : Forall (fun ev : bytes * T =>
                         is_inline_error TrimSpace_ascii (fst ev) = false)
                      [(lit event_text, event_value)])
    by (constructor; [exact H5 | constructor]).
  pose proof (fun j =>
    @compliant_stream_roundtrip T APIError zero TrimSpace_ascii compliant
      [(lit event_text, event_value)] (lit done_text) [] j H1 H2 H6 H4)
    as HR.
  destruct (HR 3%nat) as [[Hp _] Hi3].
  destruct (Hi3 H7) as [Hi _].
  destruct (proj2 (HR 1%nat) H7) as [_ F1].
  destruct (proj2 (HR 2%nat) H7) as [_ F2].
  exact (conj H1 (conj H2 (conj H3 (conj H4 (conj H5
           (conj Hp (conj Hi (conj F1 F2)))))))).
Defined.

(** C7 as stated fails in the variant with inline detection: the line
    [data: {"error":{"message":"bad request"}}] is the line of an event
    whose payload decodes, and the closing line follows, yet the first
    [Recv] returns the wrapped detail instead of the decoded value. *)
Lemma decodable_event_taken_for_error :
  pending (Reader inline_error)
  = lit inline_error_text ++ lit done_text /\
  event_line TrimSpace_ascii json (lit inline_error_text) error_body /\
  done_line TrimSpace_ascii (lit done_text) /\
  fst (iRecv inline_error) = (zero, Some (Errorf_w (Some error_detail))) /\
  fst (iRecv inline_error) <> (error_body, None) /\
  fst (pRecv inline_error) = (error_body, None).
Proof.
  repeat split; try reflexivity; try discriminate.
Qed.

(** The examples of the reader's description: an event and the closing
    line give the value, then the end of the stream; an error body without
    the prefix, on a body that then closes, gives the wrapped detail. *)
Example event_then_done :
  fst (calls iRecv 2 compliant)
  = [(event_value, None); (zero, Some io_EOF)] /\
  fst (calls pRecv 2 compliant)
  = [(event_value, None); (zero, Some io_EOF)].
Proof. split; reflexivity. Qed.

Example error_body_then_close :
  fst (iRecv server_error) = (zero, Some (Errorf_w (Some error_detail))) /\
  fst (pRecv server_error) = (zero, Some (Errorf_w (Some error_detail))).
Proof. split; reflexivity. Qed.

End Examples.

(** * Further properties of the reader *)

Lemma cut_split (delim : byte) (s line rest : bytes) :
  cut delim s = Some (line, rest) -> s = line ++ rest.
Proof.
  revert line rest. induction s as [|c s IH]; intros line rest; simpl;
    [discriminate|].
  destruct (Byte.eqb c delim).
  - intros [= <- <-]. reflexivity.
  - destruct (cut delim s) as [[l r]|]; [|discriminate].
    intros [= <- <-]. now rewrite (IH l r).
Qed.

Lemma uint_incr_small (c : uint) :
  (c + 1 < uint_modulus)%N -> uint_incr c = (c + 1)%N.
Proof. intros H. unfold uint_incr. now apply N.mod_small. Qed.

Lemma uint_incr_bound (c : uint) : (uint_incr c <= uint_modulus - 1)%N.
Proof.
  unfold uint_incr.
  assert (H : (uint_modulus <> 0)%N) by discriminate.
  pose proof (N.mod_upper_bound (c + 1) uint_modulus H). lia.
Qed.

Lemma iter_uint_incr_small (k : nat) (c : uint) :
  (c + N.of_nat k < uint_modulus)%N ->
  Nat.iter k uint_incr c = (c + N.of_nat k)%N.
Proof.
  induction k as [|k IH]; intros H.
  - cbn. now rewrite N.add_0_r.
  - rewrite Nat.iter_succ, IH by lia. rewrite uint_incr_small by lia. lia.
Qed.

Lemma iter_uint_incr_bound (k : nat) (c : uint) :
  (Nat.iter (S k) uint_incr c <= uint_modulus - 1)%N.
Proof. rewrite Nat.iter_succ. apply uint_incr_bound. Qed.

Section Further.

Context {T APIError : Type}.
Variable zero : T.
Variable TrimSpace : bytes -> bytes.

#[local] Abbreviation StreamReader := (StreamReader T APIError).
#[local] Abbreviation iRecv := (Inline.Recv zero TrimSpace).
#[local] Abbreviation pRecv := (Plain.Recv zero TrimSpace).
#[local] Abbreviation iLoop := (Inline.processLinesFrom zero TrimSpace).
#[local] Abbreviation pLoop := (Plain.processLinesFrom zero TrimSpace).
#[local] Abbreviation iBody := (Inline.loopBody zero TrimSpace).
#[local] Abbreviation pBody := (Plain.loopBody zero TrimSpace).
#[local] Abbreviation EOF := (zero, Some (@io_EOF APIError)).

Ltac branches :=
  repeat match goal with
         | |- context [if ?b then _ else _] => destruct b eqn:?
         | |- context [match ?x with _ => _ end] => destruct x eqn:?
         end.

(** ** What every pass keeps *)

Lemma later_refl (s : StreamReader) : later s s.
Proof. repeat split; auto. now exists []. Qed.

Lemma later_trans (s1 s2 s3 : StreamReader) :
  later s1 s2 -> later s2 s3 -> later s1 s3.
Proof.
  intros (L1 & U1 & F1 & R1 & D1 & c1 & P1) (L2 & U2 & F2 & R2 & D2 & c2 & P2).
  repeat split; try congruence; try lia; auto.
  exists (c1 ++ c2). now rewrite P1, P2, app_assoc.
Qed.

Lemma ReadBytes_later (s : StreamReader) :
  later s (with_Reader s (snd (ReadBytes nl (Reader s)))).
Proof.
  unfold later, ReadBytes.
  destruct (cut nl (pending (Reader s))) as [[line rest]|] eqn:Hcut; cbn.
  - repeat split; auto. exists line. now apply cut_split in Hcut.
  - repeat split; auto. exists (pending (Reader s)). now rewrite app_nil_r.
Qed.

Lemma Inline_pass_Reader (s : StreamReader) c h :
  Reader (snd (iBody s c h)) = snd (ReadBytes nl (Reader s)).
Proof.
  unfold Inline.loopBody, Write.
  destruct (ReadBytes nl (Reader s)) as [[raw readErr] rd].
  branches; reflexivity.
Qed.

Lemma Inline_pass_settings (s : StreamReader) c h :
  EmptyMessagesLimit (snd (iBody s c h)) = EmptyMessagesLimit s /\
  Unmarshaler (snd (iBody s c h)) = Unmarshaler s /\
  (isFinished s = true -> isFinished (snd (iBody s c h)) = true).
Proof.
  unfold Inline.loopBody, Write.
  destruct (ReadBytes nl (Reader s)) as [[raw readErr] rd].
  branches; cbn; auto.
Qed.

Lemma Plain_pass_settings (s : StreamReader) c :
  EmptyMessagesLimit (snd (pBody s c)) = EmptyMessagesLimit s /\
  Unmarshaler (snd (pBody s c)) = Unmarshaler s /\
  (isFinished s = true -> isFinished (snd (pBody s c)) = true).
Proof.
  unfold Plain.loopBody, Write.
  destruct (ReadBytes nl (Reader s)) as [[raw readErr] rd].
  branches; cbn; auto.
Qed.

Lemma Inline_pass_later (s : StreamReader) c h : later s (snd (iBody s c h)).
Proof.
  destruct (Inline_pass_settings s c h) as (L & U & D).
  destruct (ReadBytes_later s) as (_ & _ & F & R & _ & C).
  unfold later. rewrite (Inline_pass_Reader s c h). cbn in *. auto 10.
Qed.

Lemma Plain_pass_later (s : StreamReader) c : later s (snd (pBody s c)).
Proof.
  destruct (Plain_pass_settings s c) as (L & U & D).
  destruct (ReadBytes_later s) as (_ & _ & F & R & _ & C).
  unfold later. rewrite (Plain_pass_Reader zero TrimSpace s c). cbn in *.
  auto 10.
Qed.

Lemma Inline_loop_later (s : StreamReader) c h : later s (snd (iLoop s c h)).
Proof.
  funelim (Inline.processLinesFrom zero TrimSpace s c h);
    pose proof (Inline_pass_later stream c h) as Hpass1.
  - now rewrite e in Hpass1.
  - rewrite Hpass in Hpass1. exact (later_trans Hpass1 H).
Qed.

Lemma Plain_loop_later (s : StreamReader) c : later s (snd (pLoop s c)).
Proof.
  funelim (Plain.processLinesFrom zero TrimSpace s c);
    pose proof (Plain_pass_later stream c) as Hpass1.
  - now rewrite e in Hpass1.
  - rewrite Hpass in Hpass1. exact (later_trans Hpass1 H).
Qed.

Lemma Inline_Recv_later (s : StreamReader) : later s (snd (iRecv s)).
Proof.
  unfold Inline.Recv, Inline.processLines.
  destruct (isFinished s); [apply later_refl | apply Inline_loop_later].
Qed.

Lemma Plain_Recv_later (s : StreamReader) : later s (snd (pRecv s)).
Proof.
  unfold Plain.Recv, Plain.processLines.
  destruct (isFinished s); [apply later_refl | apply Plain_loop_later].
Qed.

Lemma calls_later
    (recv : StreamReader -> (T * option (error APIError)) * StreamReader) :
  (forall s, later s (snd (recv s))) ->
  forall n s, later s (snd (calls recv n s)).
Proof.
  intros Hrecv n. induction n as [|n IH]; intros s; simpl.
  - apply later_refl.
  - pose proof (Hrecv s) as H1. destruct (recv s) as [r s1].
    pose proof (IH s1) as H2. destruct (calls recv n s1) as [rs s2].
    exact (later_trans H1 H2).
Qed.

(** X1.  Over any number of [Recv] calls, in both variants, the session
    keeps its [EmptyMessagesLimit], its decoder and the error its body ends
    in; the input still pending is a suffix of what was pending before, so
    nothing is read twice or put back; the count of reads does not go
    down; and a raised finished flag is never lowered. *)
Theorem calls_keep_the_session (s : StreamReader) (n : nat) :
  later s (snd (calls iRecv n s)) /\ later s (snd (calls pRecv n s)).
Proof.
  split.
  - apply (calls_later iRecv Inline_Recv_later).
  - apply (calls_later pRecv Plain_Recv_later).
Qed.

(** ** What a result tells *)

Lemma Inline_pass_error_zero (s : StreamReader) c h r e s' :
  iBody s c h = (Return r (Some e), s') -> r = zero.
Proof.
  unfold Inline.loopBody, Write.
  destruct (ReadBytes nl (Reader s)) as [[raw readErr] rd].
  branches; intros [= <- ? ?]; reflexivity || discriminate.
Qed.

Lemma Plain_pass_error_zero (s : StreamReader) c r e s' :
  pBody s c = (Return r (Some e), s') -> r = zero.
Proof.
  unfold Plain.loopBody, Write.
  destruct (ReadBytes nl (Reader s)) as [[raw readErr] rd].
  branches; intros [= <- ? ?]; reflexivity || discriminate.
Qed.

Lemma Inline_loop_error_zero (s : StreamReader) c h :
  snd (fst (iLoop s c h)) <> None -> fst (fst (iLoop s c h)) = zero.
Proof.
  funelim (Inline.processLinesFrom zero TrimSpace s c h); [|assumption].
  cbn. destruct err as [e'|]; [|congruence].
  intros _. exact (Inline_pass_error_zero _ _ _ e).
Qed.

Lemma Plain_loop_error_zero (s : StreamReader) c :
  snd (fst (pLoop s c)) <> None -> fst (fst (pLoop s c)) = zero.
Proof.
  funelim (Plain.processLinesFrom zero TrimSpace s c); [|assumption].
  cbn. destruct err as [e'|]; [|congruence].
  intros _. exact (Plain_pass_error_zero _ _ e).
Qed.

(** X2.  Whenever [Recv] returns an error, the response it returns with it
    is the zero response: no partly decoded value comes with an error.
    Both variants. *)
Theorem error_comes_with_zero_response (s : StreamReader) :
  (snd (fst (iRecv s)) <> None -> fst (fst (iRecv s)) = zero) /\
  (snd (fst (pRecv s)) <> None -> fst (fst (pRecv s)) = zero).
Proof.
  unfold Inline.Recv, Inline.processLines, Plain.Recv, Plain.processLines.
  destruct (isFinished s); split; try reflexivity.
  - apply Inline_loop_error_zero.
  - apply Plain_loop_error_zero.
Qed.

Lemma Inline_pass_finished (s : StreamReader) c h :
  isFinished (snd (iBody s c h)) = isFinished s \/
  fst (iBody s c h) = Return zero (Some io_EOF).
Proof.
  unfold Inline.loopBody, Write.
  destruct (ReadBytes nl (Reader s)) as [[raw readErr] rd].
  branches; cbn; auto.
Qed.

Lemma Plain_pass_finished (s : StreamReader) c :
  isFinished (snd (pBody s c)) = isFinished s \/
  fst (pBody s c) = Return zero (Some io_EOF).
Proof.
  unfold Plain.loopBody, Write.
  destruct (ReadBytes nl (Reader s)) as [[raw readErr] rd].
  branches; cbn; auto.
Qed.

Lemma Inline_loop_finished (s : StreamReader) c h :
  isFinished (snd (iLoop s c h)) = isFinished s \/ fst (iLoop s c h) = EOF.
Proof.
  funelim (Inline.processLinesFrom zero TrimSpace s c h);
    destruct (Inline_pass_finished stream c h) as [Hsame | Hdone].
  - left. now rewrite e in Hsame.
  - right. rewrite e in Hdone. cbn in *. now inversion Hdone.
  - rewrite Hpass in Hsame. cbn in Hsame. rewrite <- Hsame. exact H.
  - rewrite Hpass in Hdone. discriminate.
Qed.

Lemma Plain_loop_finished (s : StreamReader) c :
  isFinished (snd (pLoop s c)) = isFinished s \/ fst (pLoop s c) = EOF.
Proof.
  funelim (Plain.processLinesFrom zero TrimSpace s c);
    destruct (Plain_pass_finished stream c) as [Hsame | Hdone].
  - left. now rewrite e in Hsame.
  - right. rewrite e in Hdone. cbn in *. now inversion Hdone.
  - rewrite Hpass in Hsame. cbn in Hsame. rewrite <- Hsame. exact H.
  - rewrite Hpass in Hdone. discriminate.
Qed.

(** X3.  A session that is finished after a [Recv] call got the zero
    response and [io.EOF] from that call: no call that returns a value or
    another error leaves the finished flag up.  Both variants. *)
Theorem finished_only_with_eof (s : StreamReader) :
  (isFinished (snd (iRecv s)) = true -> fst (iRecv s) = EOF) /\
  (isFinished (snd (pRecv s)) = true -> fst (pRecv s) = EOF).
Proof.
  unfold Inline.Recv, Inline.processLines, Plain.Recv, Plain.processLines.
  destruct (isFinished s) eqn:Hfin; split; try reflexivity; intros Hup.
  - destruct (Inline_loop_finished s 0%N false) as [Hsame | Hdone];
      [congruence | assumption].
  - destruct (Plain_loop_finished s 0%N) as [Hsame | Hdone];
      [congruence | assumption].
Qed.

Lemma Plain_pass_value (s : StreamReader) c r s' :
  pBody s c = (Return r None, s') ->
  exists raw rd,
    ReadBytes nl (Reader s) = ((raw, None), rd) /\
    is_event TrimSpace raw = true /\
    payload TrimSpace raw <> doneMarker /\
    Unmarshal (Unmarshaler s) (payload TrimSpace raw) = (None, r).
Proof.
  unfold Plain.loopBody, Write, is_event, payload.
  destruct (ReadBytes nl (Reader s)) as [[raw [e|]] rd]; cbn [is_err].
  - destruct (unmarshalError _); discriminate.
  - destruct (HasPrefix (TrimSpace raw) headerData) eqn:Hev; cbn [negb].
    + destruct (bytes_eqb _ doneMarker) eqn:Hnd; [discriminate|].
      apply bytes_eqb_neq in Hnd.
      destruct (Unmarshal _ _) as [[e|] v] eqn:Hdec; intros [= <- ?].
      exists raw, rd. auto.
    + destruct (_ <? _)%N; discriminate.
Qed.

Lemma Plain_pass_continue (s : StreamReader) c c' s' :
  pBody s c = (Continue c', s') ->
  c' = uint_incr c /\ (c' <= EmptyMessagesLimit s)%N /\
  Unmarshaler s' = Unmarshaler s /\
  EmptyMessagesLimit s' = EmptyMessagesLimit s /\
  exists raw, cut nl (pending (Reader s)) = Some (raw, pending (Reader s')).
Proof.
  unfold Plain.loopBody, Write.
  destruct (ReadBytes nl (Reader s)) as [[raw [e|]] rd] eqn:Hread;
    cbn [is_err].
  - destruct (unmarshalError _); discriminate.
  - apply ReadBytes_ok_cut in Hread.
    destruct (HasPrefix (TrimSpace raw) headerData); cbn [negb].
    + destruct (bytes_eqb _ _); [discriminate|].
      destruct (Unmarshal _ _) as [[e|] v]; discriminate.
    + cbn. destruct (_ <? _)%N eqn:Hlt; [discriminate|].
      apply N.ltb_ge in Hlt. intros [= <- <-]. cbn. eauto 6.
Qed.

Lemma Inline_pass_continue (s : StreamReader) c h c' h' s' :
  iBody s c h = (Continue (c', h'), s') ->
  c' = uint_incr c /\ (c' <= EmptyMessagesLimit s)%N /\
  EmptyMessagesLimit s' = EmptyMessagesLimit s.
Proof.
  unfold Inline.loopBody, Write.
  destruct (ReadBytes nl (Reader s)) as [[raw readErr] rd].
  destruct (is_err readErr || h);
    [destruct (unmarshalError _); discriminate|].
  destruct (negb _ || _).
  - cbn. destruct (_ <? _)%N eqn:Hlt; [discriminate|].
    apply N.ltb_ge in Hlt. intros [= <- <- <-]. cbn. auto.
  - destruct (bytes_eqb _ _); [discriminate|].
    destruct (Unmarshal _ _) as [[e|] v]; discriminate.
Qed.

Lemma Plain_loop_value (s : StreamReader) c :
  snd (fst (pLoop s c)) = None ->
  exists raw,
    In raw (lines (pending (Reader s))) /\
    is_event TrimSpace raw = true /\
    payload TrimSpace raw <> doneMarker /\
    Unmarshal (Unmarshaler s) (payload TrimSpace raw)
    = (None, fst (fst (pLoop s c))).
Proof.
  funelim (Plain.processLinesFrom zero TrimSpace s c).
  - cbn. intros ->.
    destruct (Plain_pass_value _ _ e) as (raw & rd & Hread & Hev & Hnd & Hdec).
    exists raw. apply ReadBytes_ok_cut in Hread.
    rewrite lines_cut, Hread. cbn. auto.
  - intros Hnil.
    destruct (H Hnil) as (raw & Hin & Hev & Hnd & Hdec).
    destruct (Plain_pass_continue _ _ Hpass) as (_ & _ & HU & _ & l & Hcut).
    exists raw. rewrite lines_cut, Hcut, <- HU. cbn. auto.
Qed.

(** X4.  In the variant without inline detection, a nil error always comes
    with a decoded event: the response is what the decoder made of the
    payload of a complete line of the body, a line that carries the
    [data: ] prefix and is not the closing line. *)
Theorem plain_success_is_a_decoded_line (s : StreamReader) :
  snd (fst (pRecv s)) = None ->
  exists raw,
    In raw (lines (pending (Reader s))) /\
    is_event TrimSpace raw = true /\
    payload TrimSpace raw <> doneMarker /\
    Unmarshal (Unmarshaler s) (payload TrimSpace raw)
    = (None, fst (fst (pRecv s))).
Proof.
  unfold Plain.Recv, Plain.processLines.
  destruct (isFinished s); [discriminate | apply Plain_loop_value].
Qed.

(** ** How many lines a call reads *)

Lemma ReadBytes_reads (r : bufio_Reader APIError) :
  reads (snd (ReadBytes nl r)) = S (reads r).
Proof. unfold ReadBytes. destruct (cut nl (pending r)) as [[l t]|]; reflexivity. Qed.

Lemma Inline_loop_reads (s : StreamReader) c h :
  (c <= EmptyMessagesLimit s)%N ->
  (EmptyMessagesLimit s + 1 < uint_modulus)%N ->
  (reads (Reader s) < reads (Reader (snd (iLoop s c h))) /\
   reads (Reader (snd (iLoop s c h)))
   <= reads (Reader s) + N.to_nat (EmptyMessagesLimit s - c) + 1)%nat.
Proof.
  funelim (Inline.processLinesFrom zero TrimSpace s c h); intros Hc Hlim;
    pose proof (Inline_pass_Reader stream c h) as HR;
    apply (f_equal (@reads APIError)) in HR; rewrite ReadBytes_reads in HR.
  - rewrite e in HR. cbn in *. lia.
  - rewrite Hpass in HR. cbn in HR.
    destruct (Inline_pass_continue _ _ _ Hpass) as (Hc' & Hle & HL).
    rewrite uint_incr_small in Hc' by lia. subst c'.
    rewrite HL in H. specialize (H Hle Hlim). lia.
Qed.

Lemma Plain_loop_reads (s : StreamReader) c :
  (c <= EmptyMessagesLimit s)%N ->
  (EmptyMessagesLimit s + 1 < uint_modulus)%N ->
  (reads (Reader s) < reads (Reader (snd (pLoop s c))) /\
   reads (Reader (snd (pLoop s c)))
   <= reads (Reader s) + N.to_nat (EmptyMessagesLimit s - c) + 1)%nat.
Proof.
  funelim (Plain.processLinesFrom zero TrimSpace s c); intros Hc Hlim;
    pose proof (Plain_pass_Reader zero TrimSpace stream c) as HR;
    apply (f_equal (@reads APIError)) in HR; rewrite ReadBytes_reads in HR.
  - rewrite e in HR. cbn in *. lia.
  - rewrite Hpass in HR. cbn in HR.
    destruct (Plain_pass_continue _ _ Hpass) as (Hc' & Hle & _ & HL & _).
    rewrite uint_incr_small in Hc' by lia. subst c'.
    rewrite HL in H. specialize (H Hle Hlim). lia.
Qed.

(** X5.  A [Recv] call on a session that is not finished reads at least
    one line and at most [EmptyMessagesLimit + 1] lines, provided the limit
    is below the largest [uint], so that the counter cannot wrap: however
    the body goes on, a call cannot stall over more lines than that.  Both
    variants. *)
Theorem recv_reads_are_bounded (s : StreamReader) :
  isFinished s = false ->
  (EmptyMessagesLimit s + 1 < uint_modulus)%N ->
  (reads (Reader s) < reads (Reader (snd (iRecv s))) /\
   reads (Reader (snd (iRecv s)))
   <= reads (Reader s) + N.to_nat (EmptyMessagesLimit s) + 1)%nat /\
  (reads (Reader s) < reads (Reader (snd (pRecv s))) /\
   reads (Reader (snd (pRecv s)))
   <= reads (Reader s) + N.to_nat (EmptyMessagesLimit s) + 1)%nat.
Proof.
  intros Hfin Hlim.
  unfold Inline.Recv, Inline.processLines, Plain.Recv, Plain.processLines.
  rewrite Hfin.
  pose proof (@Inline_loop_reads s 0%N false (N.le_0_l _) Hlim) as Hi.
  pose proof (@Plain_loop_reads s 0%N (N.le_0_l _) Hlim) as Hp.
  rewrite N.sub_0_r in Hi, Hp. auto.
Qed.

(** ** A body that holds no further line feed *)

Section NoLineFeed.

(** A receive operation that, on a session that is not finished and whose
    pending input holds no line feed, reads once and returns the outcome
    of the error check. *)
Variable recv : StreamReader -> (T * option (error APIError)) * StreamReader.

Hypothesis recv_read_failed : forall (s : StreamReader) raw e rd,
  isFinished s = false ->
  ReadBytes nl (Reader s) = ((raw, Some e), rd) ->
  recv s = ((zero, errorOutcome s (Some e)), with_Reader s rd).

Lemma calls_drained (s : StreamReader) (n : nat) :
  isFinished s = false ->
  cut nl (pending (Reader s)) = None ->
  calls recv (S n) s
  = (repeat (zero, errorOutcome s (Some (failure (Reader s)))) (S n),
     drained_by s (S n)).
Proof.
  intros Hfin Hcut.
  assert (Hfirst : recv s = ((zero, errorOutcome s (Some (failure (Reader s)))),
                             drained_by s 1)).
  { apply recv_read_failed with (raw := pending (Reader s)); [assumption|].
    unfold ReadBytes. now rewrite Hcut. }
  assert (Hnext : forall k,
             recv (drained_by s k)
             = ((zero, errorOutcome s (Some (failure (Reader s)))),
                drained_by s (S k))).
  { intros k.
    assert (Hr : ReadBytes nl (Reader (drained_by s k))
                 = (([], Some (failure (Reader s))),
                    Reader (drained_by s (S k)))) by reflexivity.
    rewrite (recv_read_failed (drained_by s k) Hfin Hr).
    reflexivity. }
  cbn [calls]. rewrite Hfirst.
  assert (Hrest : forall m k,
             calls recv m (drained_by s k)
             = (repeat (zero, errorOutcome s (Some (failure (Reader s)))) m,
                drained_by s (m + k))).
  { induction m as [|m IH]; intros k; cbn [calls]; [reflexivity|].
    rewrite Hnext, IH. cbn [repeat]. rewrite Nat.add_succ_r. reflexivity. }
  rewrite Hrest. cbn [repeat]. rewrite Nat.add_1_r. reflexivity.
Qed.

End NoLineFeed.

(** X6.  When the pending input of a session that is not finished holds
    no line feed, be it empty or an unterminated last line, even one that
    reads [data: [DONE]], every further [Recv] call performs one read and
    returns the same result: the wrapped detail of the envelope the
    accumulator decodes to, or else the error the body ends in.  The
    pending bytes are dropped without being decoded or accumulated, and the
    session never becomes finished.  Both variants. *)
Theorem unterminated_rest_is_dropped (s : StreamReader) (n : nat) :
  isFinished s = false ->
  cut nl (pending (Reader s)) = None ->
  let failed := (zero, errorOutcome s (Some (failure (Reader s)))) in
  calls iRecv (S n) s = (repeat failed (S n), drained_by s (S n)) /\
  calls pRecv (S n) s = (repeat failed (S n), drained_by s (S n)) /\
  isFinished (drained_by s (S n)) = false /\
  ErrAccumulator (drained_by s (S n)) = ErrAccumulator s.
Proof.
  intros Hfin Hcut failed. repeat split; try assumption.
  - apply calls_drained; try assumption.
    intros s0 raw e rd Hf Hread.
    unfold Inline.Recv, Inline.processLines. rewrite Hf.
    rewrite Inline_loop_pass,
      (Inline_pass_read_failed zero TrimSpace s0 0%N false Hread).
    reflexivity.
  - apply calls_drained; try assumption.
    intros s0 raw e rd Hf Hread.
    unfold Plain.Recv, Plain.processLines. rewrite Hf.
    rewrite Plain_loop_pass,
      (Plain_pass_read_failed zero TrimSpace s0 0%N Hread).
    reflexivity.
Qed.

(** ** Non-payload lines before an event *)

Lemma skipped_nil (s : StreamReader) :
  skipped TrimSpace s [] (pending (Reader s)) = s.
Proof.
  destruct s as [L F [p f r] A U]. unfold skipped. cbn.
  now rewrite app_nil_r.
Qed.

Lemma skipped_cons (s : StreamReader) l ls rest :
  skipped TrimSpace
    (accumulated s {| pending := List.concat ls ++ rest;
                      failure := failure (Reader s);
                      reads := S (reads (Reader s)) |} (TrimSpace l))
    ls rest
  = skipped TrimSpace s (l :: ls) rest.
Proof.
  unfold skipped, accumulated. cbn.
  now rewrite Nat.add_succ_r, <- app_assoc.
Qed.

Lemma Plain_skip (ls : list bytes) :
  forall (s : StreamReader) (c : uint) (rest : bytes),
    pending (Reader s) = List.concat ls ++ rest ->
    Forall (non_payload_line TrimSpace) ls ->
    (forall i, (i < List.length ls)%nat ->
               (Nat.iter (S i) uint_incr c <= EmptyMessagesLimit s)%N) ->
    pLoop s c
    = pLoop (skipped TrimSpace s ls rest) (Nat.iter (List.length ls) uint_incr c).
Proof.
  induction ls as [|l ls IH]; intros s c rest Hpend Hls Hc.
  - cbn in Hpend. rewrite <- Hpend, skipped_nil. reflexivity.
  - inversion Hls as [|? ? [Hl Hev] Hls']; subst.
    cbn [List.concat] in Hpend. rewrite <- app_assoc in Hpend.
    pose proof (ReadBytes_line (Reader s) _ Hl Hpend) as Hread.
    rewrite (proj2 (Plain_loop_skip zero TrimSpace s c Hread Hev
                      (Hc 0%nat ltac:(cbn; lia)))).
    rewrite IH with (rest := rest); try assumption; try reflexivity.
    + rewrite skipped_cons. cbn [List.length]. now rewrite Nat.iter_succ_r.
    + intros i Hi. rewrite <- Nat.iter_succ_r. apply (Hc (S i)). cbn. lia.
Qed.

Lemma Inline_skip (ls : list bytes) :
  forall (s : StreamReader) (c : uint) (rest : bytes),
    pending (Reader s) = List.concat ls ++ rest ->
    Forall (non_payload_line TrimSpace) ls ->
    (forall i, (i < List.length ls)%nat ->
               (Nat.iter (S i) uint_incr c <= EmptyMessagesLimit s)%N) ->
    iLoop s c false
    = iLoop (skipped TrimSpace s ls rest)
        (Nat.iter (List.length ls) uint_incr c) false.
Proof.
  induction ls as [|l ls IH]; intros s c rest Hpend Hls Hc.
  - cbn in Hpend. rewrite <- Hpend, skipped_nil. reflexivity.
  - inversion Hls as [|? ? [Hl Hev] Hls']; subst.
    cbn [List.concat] in Hpend. rewrite <- app_assoc in Hpend.
    pose proof (ReadBytes_line (Reader s) _ Hl Hpend) as Hread.
    rewrite (proj2 (Inline_loop_skip zero TrimSpace s c Hread Hev
                      (Hc 0%nat ltac:(cbn; lia)))).
    rewrite IH with (rest := rest); try assumption; try reflexivity.
    + rewrite skipped_cons. cbn [List.length]. now rewrite Nat.iter_succ_r.
    + intros i Hi. rewrite <- Nat.iter_succ_r. apply (Hc (S i)). cbn. lia.
Qed.

Lemma skipped_snoc (s : StreamReader) ls l rest :
  accumulated (skipped TrimSpace s ls (l ++ rest))
    {| pending := rest;
       failure := failure (Reader s);
       reads := S (List.length ls + reads (Reader s)) |} (TrimSpace l)
  = skipped TrimSpace s (ls ++ [l]) rest.
Proof.
  unfold skipped, accumulated. cbn.
  rewrite map_app, concat_app, length_app. cbn.
  now rewrite app_nil_r, app_assoc, Nat.add_1_r.
Qed.

Lemma Plain_Recv_skip_event (s : StreamReader) ls ev v rest :
  isFinished s = false ->
  pending (Reader s) = List.concat ls ++ ev ++ rest ->
  Forall (non_payload_line TrimSpace) ls ->
  (forall i, (i < List.length ls)%nat ->
             (Nat.iter (S i) uint_incr 0 <= EmptyMessagesLimit s)%N) ->
  event_line TrimSpace (Unmarshaler s) ev v ->
  pRecv s
  = ((v, None),
     with_Reader (skipped TrimSpace s ls (ev ++ rest))
       {| pending := rest; failure := failure (Reader s);
          reads := S (List.length ls + reads (Reader s)) |}).
Proof.
  intros Hfin Hpend Hls Hc (Hl & Hev & Hnd & Hdec).
  unfold Plain.Recv, Plain.processLines. rewrite Hfin.
  rewrite (Plain_skip s 0%N (ev ++ rest) Hpend Hls Hc).
  pose proof (ReadBytes_line (Reader (skipped TrimSpace s ls (ev ++ rest)))
                rest Hl eq_refl) as Hread.
  rewrite Plain_loop_pass, (Plain_pass_event zero TrimSpace _ _ Hread Hev).
  cbn [Unmarshaler skipped]. rewrite Hnd, Hdec. reflexivity.
Qed.

Lemma Inline_Recv_skip_event (s : StreamReader) ls ev v rest :
  isFinished s = false ->
  pending (Reader s) = List.concat ls ++ ev ++ rest ->
  Forall (non_payload_line TrimSpace) ls ->
  (forall i, (i < List.length ls)%nat ->
             (Nat.iter (S i) uint_incr 0 <= EmptyMessagesLimit s)%N) ->
  event_line TrimSpace (Unmarshaler s) ev v ->
  is_inline_error TrimSpace ev = false ->
  iRecv s
  = ((v, None),
     with_Reader (skipped TrimSpace s ls (ev ++ rest))
       {| pending := rest; failure := failure (Reader s);
          reads := S (List.length ls + reads (Reader s)) |}).
Proof.
  intros Hfin Hpend Hls Hc (Hl & Hev & Hnd & Hdec) Hne.
  unfold Inline.Recv, Inline.processLines. rewrite Hfin.
  rewrite (Inline_skip s 0%N (ev ++ rest) Hpend Hls Hc).
  pose proof (ReadBytes_line (Reader (skipped TrimSpace s ls (ev ++ rest)))
                rest Hl eq_refl) as Hread.
  rewrite Inline_loop_pass,
    (Inline_pass_event zero TrimSpace _ _ Hread Hev Hne).
  cbn [Unmarshaler skipped]. rewrite Hnd, Hdec. reflexivity.
Qed.

Lemma counters_within (k : nat) (limit : uint) :
  (N.of_nat k <= limit)%N -> (limit < uint_modulus)%N ->
  forall i, (i < k)%nat -> (Nat.iter (S i) uint_incr 0 <= limit)%N.
Proof.
  intros Hk Hlim i Hi. rewrite iter_uint_incr_small; lia.
Qed.

(** X7.  Up to [EmptyMessagesLimit] non-payload lines before the line of
    an event do not disturb the call: [Recv] appends their trimmed forms
    to the accumulator, reads on and returns the value the event decodes
    to, with a nil error.  Both variants; with inline detection the event
    line must not start with [data: {"error":]. *)
Theorem lines_within_limit_are_skipped (s : StreamReader)
    (ls : list bytes) (ev : bytes) (v : T) (rest : bytes) :
  isFinished s = false ->
  pending (Reader s) = List.concat ls ++ ev ++ rest ->
  Forall (non_payload_line TrimSpace) ls ->
  (N.of_nat (List.length ls) <= EmptyMessagesLimit s)%N ->
  (EmptyMessagesLimit s < uint_modulus)%N ->
  event_line TrimSpace (Unmarshaler s) ev v ->
  let after :=
    with_Reader (skipped TrimSpace s ls (ev ++ rest))
      {| pending := rest; failure := failure (Reader s);
         reads := S (List.length ls + reads (Reader s)) |} in
  pRecv s = ((v, None), after) /\
  (is_inline_error TrimSpace ev = false -> iRecv s = ((v, None), after)).
Proof.
  intros Hfin Hpend Hls Hk Hlim Hev after.
  pose proof (counters_within Hk Hlim) as Hc. split.
  - now apply Plain_Recv_skip_event.
  - intros Hne. now apply Inline_Recv_skip_event.
Qed.

(** X8.  When the body starts with [EmptyMessagesLimit + 1] non-payload
    lines, the limit being below the largest [uint], [Recv] fails with
    [ErrTooManyEmptyStreamMessages] on the last of them: exactly these
    lines have been read and their trimmed forms appended to the
    accumulator, and what follows them stays pending.  Both variants. *)
Theorem lines_beyond_limit_fail (s : StreamReader)
    (ls : list bytes) (rest : bytes) :
  isFinished s = false ->
  pending (Reader s) = List.concat ls ++ rest ->
  Forall (non_payload_line TrimSpace) ls ->
  List.length ls = S (N.to_nat (EmptyMessagesLimit s)) ->
  (EmptyMessagesLimit s + 1 < uint_modulus)%N ->
  iRecv s = ((zero, Some ErrTooManyEmptyStreamMessages),
             skipped TrimSpace s ls rest) /\
  pRecv s = ((zero, Some ErrTooManyEmptyStreamMessages),
             skipped TrimSpace s ls rest).
Proof.
  intros Hfin Hpend Hls Hlen Hlim.
  destruct (exists_last (l := ls)) as (ls0 & l & ->);
    [intros ->; discriminate|].
  apply Forall_app in Hls. destruct Hls as [Hls0 Hlast].
  inversion Hlast as [|? ? [Hl Hev] _]; subst.
  rewrite length_app in Hlen. cbn in Hlen.
  assert (Hlen0 : List.length ls0 = N.to_nat (EmptyMessagesLimit s)) by lia.
  rewrite concat_app in Hpend. cbn in Hpend.
  rewrite app_nil_r, <- app_assoc in Hpend.
  assert (Hc : forall i, (i < List.length ls0)%nat ->
               (Nat.iter (S i) uint_incr 0 <= EmptyMessagesLimit s)%N)
    by (apply counters_within; lia).
  assert (Hk : Nat.iter (List.length ls0) uint_incr 0%N = EmptyMessagesLimit s)
    by (rewrite iter_uint_incr_small; lia).
  pose proof (ReadBytes_line (Reader (skipped TrimSpace s ls0 (l ++ rest)))
                rest Hl eq_refl) as Hread.
  assert (Hover : (EmptyMessagesLimit (skipped TrimSpace s ls0 (l ++ rest))
                   < uint_incr (EmptyMessagesLimit s))%N)
    by (rewrite uint_incr_small by lia; cbn; lia).
  unfold Inline.Recv, Inline.processLines, Plain.Recv, Plain.processLines.
  rewrite Hfin. split.
  - rewrite (Inline_skip s 0%N (l ++ rest) Hpend Hls0 Hc), Hk.
    rewrite (Inline_loop_too_many zero TrimSpace _ _ Hread Hev Hover).
    f_equal. apply skipped_snoc.
  - rewrite (Plain_skip s 0%N (l ++ rest) Hpend Hls0 Hc), Hk.
    rewrite (Plain_loop_too_many zero TrimSpace _ _ Hread Hev Hover).
    f_equal. apply skipped_snoc.
Qed.

(** X9.  With [EmptyMessagesLimit] at the largest [uint] the counter wraps
    before it can exceed the limit: any number of non-payload lines before
    the line of an event is skipped, and [Recv] returns the event's value.
    Both variants; with inline detection the event line must not start
    with [data: {"error":]. *)
Theorem largest_limit_never_fails (s : StreamReader)
    (ls : list bytes) (ev : bytes) (v : T) (rest : bytes) :
  isFinished s = false ->
  pending (Reader s) = List.concat ls ++ ev ++ rest ->
  Forall (non_payload_line TrimSpace) ls ->
  EmptyMessagesLimit s = (uint_modulus - 1)%N ->
  event_line TrimSpace (Unmarshaler s) ev v ->
  let after :=
    with_Reader (skipped TrimSpace s ls (ev ++ rest))
      {| pending := rest; failure := failure (Reader s);
         reads := S (List.length ls + reads (Reader s)) |} in
  pRecv s = ((v, None), after) /\
  (is_inline_error TrimSpace ev = false -> iRecv s = ((v, None), after)).
Proof.
  intros Hfin Hpend Hls Hmax Hev after.
  assert (Hc : forall i, (i < List.length ls)%nat ->
               (Nat.iter (S i) uint_incr 0 <= EmptyMessagesLimit s)%N)
    by (intros i _; rewrite Hmax; apply iter_uint_incr_bound).
  split.
  - now apply Plain_Recv_skip_event.
  - intros Hne. now apply Inline_Recv_skip_event.
Qed.

(** ** Events with non-payload lines between them *)

Lemma Plain_Recv_skip_done (s : StreamReader) ls d rest :
  isFinished s = false ->
  pending (Reader s) = List.concat ls ++ d ++ rest ->
  Forall (non_payload_line TrimSpace) ls ->
  (N.of_nat (List.length ls) <= EmptyMessagesLimit s)%N ->
  (EmptyMessagesLimit s < uint_modulus)%N ->
  done_line TrimSpace d ->
  exists fin, pRecv s = (EOF, fin) /\ isFinished fin = true.
Proof.
  intros Hfin Hpend Hls Hk Hlim (Hl & Hev & Hdone).
  unfold Plain.Recv, Plain.processLines. rewrite Hfin.
  rewrite (Plain_skip s 0%N (d ++ rest) Hpend Hls (counters_within Hk Hlim)).
  pose proof (ReadBytes_line (Reader (skipped TrimSpace s ls (d ++ rest)))
                rest Hl eq_refl) as Hread.
  rewrite Plain_loop_pass, (Plain_pass_event zero TrimSpace _ _ Hread Hev).
  rewrite Hdone. cbn. eexists. split; reflexivity.
Qed.

Lemma Inline_Recv_skip_done (s : StreamReader) ls d rest :
  isFinished s = false ->
  pending (Reader s) = List.concat ls ++ d ++ rest ->
  Forall (non_payload_line TrimSpace) ls ->
  (N.of_nat (List.length ls) <= EmptyMessagesLimit s)%N ->
  (EmptyMessagesLimit s < uint_modulus)%N ->
  done_line TrimSpace d ->
  exists fin, iRecv s = (EOF, fin) /\ isFinished fin = true.
Proof.
  intros Hfin Hpend Hls Hk Hlim (Hl & Hev & Hdone).
  unfold Inline.Recv, Inline.processLines. rewrite Hfin.
  rewrite (Inline_skip s 0%N (d ++ rest) Hpend Hls (counters_within Hk Hlim)).
  pose proof (ReadBytes_line (Reader (skipped TrimSpace s ls (d ++ rest)))
                rest Hl eq_refl) as Hread.
  rewrite Inline_loop_pass,
    (Inline_pass_event zero TrimSpace _ _ Hread Hev
       (done_line_not_error TrimSpace _ Hev Hdone)).
  rewrite Hdone. cbn. eexists. split; reflexivity.
Qed.

Section Blocks.

(** A receive operation that returns the value of an acceptable block,
    leaving a session that is not finished, has the same settings and
    holds what followed the block; that finishes on a closing line after
    tolerated non-payload lines; and that stays finished. *)
Variable recv : StreamReader -> (T * option (error APIError)) * StreamReader.
Variable acceptable :
  Unmarshaler_ T APIError -> uint -> @block T -> Prop.

Hypothesis recv_block : forall (s : StreamReader) (b : @block T) rest,
  isFinished s = false ->
  pending (Reader s) = block_bytes b ++ rest ->
  acceptable (Unmarshaler s) (EmptyMessagesLimit s) b ->
  exists s',
    recv s = ((snd b, None), s') /\
    isFinished s' = false /\ pending (Reader s') = rest /\
    Unmarshaler s' = Unmarshaler s /\
    EmptyMessagesLimit s' = EmptyMessagesLimit s.

Hypothesis recv_close : forall (s : StreamReader) ls d rest,
  isFinished s = false ->
  pending (Reader s) = List.concat ls ++ d ++ rest ->
  Forall (non_payload_line TrimSpace) ls ->
  (N.of_nat (List.length ls) <= EmptyMessagesLimit s)%N ->
  (EmptyMessagesLimit s < uint_modulus)%N ->
  done_line TrimSpace d ->
  exists fin, recv s = (EOF, fin) /\ isFinished fin = true.

Hypothesis recv_finished : forall s : StreamReader,
  isFinished s = true -> recv s = (EOF, s).

Lemma roundtrip_blocks (u : Unmarshaler_ T APIError) (limit : uint)
    (bs : list (@block T)) (ls : list bytes) (d rest : bytes) :
  Forall (acceptable u limit) bs ->
  Forall (non_payload_line TrimSpace) ls ->
  (N.of_nat (List.length ls) <= limit)%N ->
  (limit < uint_modulus)%N ->
  done_line TrimSpace d ->
  forall (s : StreamReader) (j : nat),
    Unmarshaler s = u ->
    EmptyMessagesLimit s = limit ->
    isFinished s = false ->
    pending (Reader s)
    = List.concat (map (@block_bytes T) bs) ++ List.concat ls ++ d ++ rest ->
    fst (calls recv j s) = expected zero (map (@block_event T) bs) j /\
    isFinished (snd (calls recv j s)) = (List.length bs <? j)%nat.
Proof.
  intros Hbs Hls Hk Hlim Hd. induction Hbs as [|b bs Hb _ IH];
    intros s [|j] Hu HL Hfin Hpend; unfold expected; cbn [calls fst snd].
  - split; [reflexivity | assumption].
  - rewrite <- HL in Hk, Hlim.
    destruct (recv_close s rest Hfin Hpend Hls Hk Hlim Hd)
      as (fin & -> & Hfinished).
    rewrite (calls_finished recv (recv_finished fin Hfinished)).
    cbn. split; [reflexivity | assumption].
  - split; [reflexivity | assumption].
  - cbn [map List.concat] in Hpend. rewrite <- app_assoc in Hpend.
    rewrite <- Hu, <- HL in Hb.
    destruct (recv_block s _ Hfin Hpend Hb)
      as (s1 & -> & Hfin1 & Hpend1 & Hu1 & HL1).
    destruct (IH s1 j (eq_trans Hu1 Hu) (eq_trans HL1 HL) Hfin1 Hpend1)
      as [Hres Hflag].
    destruct (calls recv j s1) as [rs s2].
    cbn in *. rewrite Hres, Hflag. unfold expected. split; reflexivity.
Qed.

End Blocks.

(** X10.  The tolerance for non-payload lines holds per call, not per
    session.  Let the body consist of events, each preceded by at most
    [EmptyMessagesLimit] non-payload lines, and the closing line, preceded
    by at most as many.  Then the first [j] calls of [Recv] return the
    values of the events in order and [io.EOF] from then on, and the
    finished flag is raised by the call after the last event, however
    many non-payload lines the body holds in all.  Both variants; with
    inline detection no event line may start with [data: {"error":]. *)
Theorem roundtrip_with_lines_between (s : StreamReader)
    (bs : list (@block T)) (ls : list bytes) (d rest : bytes) (j : nat) :
  isFinished s = false ->
  (EmptyMessagesLimit s < uint_modulus)%N ->
  pending (Reader s)
  = List.concat (map (@block_bytes T) bs) ++ List.concat ls ++ d ++ rest ->
  Forall (block_within TrimSpace (Unmarshaler s) (EmptyMessagesLimit s)) bs ->
  Forall (non_payload_line TrimSpace) ls ->
  (N.of_nat (List.length ls) <= EmptyMessagesLimit s)%N ->
  done_line TrimSpace d ->
  (fst (calls pRecv j s) = expected zero (map (@block_event T) bs) j /\
   isFinished (snd (calls pRecv j s)) = (List.length bs <? j)%nat) /\
  (Forall (fun b => is_inline_error TrimSpace (snd (fst b)) = false) bs ->
   fst (calls iRecv j s) = expected zero (map (@block_event T) bs) j /\
   isFinished (snd (calls iRecv j s)) = (List.length bs <? j)%nat).
Proof.
  intros Hfin Hlim Hpend Hbs Hls Hk Hd. split.
  - apply (roundtrip_blocks pRecv
             (fun u limit b => block_within TrimSpace u limit b
                               /\ (limit < uint_modulus)%N))
      with (u := Unmarshaler s) (limit := EmptyMessagesLimit s)
           (ls := ls) (d := d) (rest := rest); auto.
    + intros s0 [[ls0 ev] v] rest0 Hf Hp [(Hl0 & Hk0 & Hev0) Hlim0].
      unfold block_bytes in Hp. cbn in *. rewrite <- app_assoc in Hp.
      eexists. split.
      * apply (@Plain_Recv_skip_event s0 ls0 ev v rest0 Hf Hp Hl0
                 (counters_within Hk0 Hlim0) Hev0).
      * cbn. auto.
    + apply Plain_Recv_skip_done.
    + intros s0 Hf. unfold Plain.Recv. now rewrite Hf.
    + rewrite Forall_forall in *. auto.
  - intros Hclean.
    apply (roundtrip_blocks iRecv
             (fun u limit b => block_within TrimSpace u limit b
                               /\ (limit < uint_modulus)%N
                               /\ is_inline_error TrimSpace (snd (fst b))
                                  = false))
      with (u := Unmarshaler s) (limit := EmptyMessagesLimit s)
           (ls := ls) (d := d) (rest := rest); auto.
    + intros s0 [[ls0 ev] v] rest0 Hf Hp [(Hl0 & Hk0 & Hev0) [Hlim0 Hne0]].
      unfold block_bytes in Hp. cbn in *. rewrite <- app_assoc in Hp.
      eexists. split.
      * apply (@Inline_Recv_skip_event s0 ls0 ev v rest0 Hf Hp Hl0
                 (counters_within Hk0 Hlim0) Hev0 Hne0).
      * cbn. auto.
    + apply Inline_Recv_skip_done.
    + intros s0 Hf. unfold Inline.Recv. now rewrite Hf.
    + rewrite Forall_forall in *. auto.
Qed.

(** ** An error body without the prefix *)

(** X11.  When the body holds at most [EmptyMessagesLimit] non-payload
    lines and then ends without a further line feed, and the accumulator
    with the trimmed lines appended is not empty and decodes to an
    envelope, [Recv] returns the wrapped inner detail of that envelope in
    place of the error the body ends in: an error body sent without the
    [data: ] prefix, over one line or several, is reported when the body
    closes.  Both variants. *)
Theorem unprefixed_error_body_is_reported (s : StreamReader)
    (ls : list bytes) (rest : bytes) (env : ErrorResponse APIError) :
  isFinished s = false ->
  pending (Reader s) = List.concat ls ++ rest ->
  cut nl rest = None ->
  Forall (non_payload_line TrimSpace) ls ->
  (N.of_nat (List.length ls) <= EmptyMessagesLimit s)%N ->
  (EmptyMessagesLimit s < uint_modulus)%N ->
  ErrAccumulator s ++ List.concat (map TrimSpace ls) <> [] ->
  Unmarshal_errResp (Unmarshaler s)
    (ErrAccumulator s ++ List.concat (map TrimSpace ls))
  = (None, Some env) ->
  let after := drained_by (skipped TrimSpace s ls rest) 1 in
  iRecv s = ((zero, Some (Errorf_w (Error env))), after) /\
  pRecv s = ((zero, Some (Errorf_w (Error env))), after).
Proof.
  intros Hfin Hpend Hcut Hls Hk Hlim Hne Hdec after.
  pose proof (counters_within Hk Hlim) as Hc.
  set (s1 := skipped TrimSpace s ls rest).
  assert (Hread : ReadBytes nl (Reader s1)
                  = ((rest, Some (failure (Reader s))), Reader after))
    by (unfold ReadBytes; cbn; rewrite Hcut; reflexivity).
  assert (Herr : errorOutcome s1 (Some (failure (Reader s)))
                 = Some (Errorf_w (Error env))).
  { unfold errorOutcome.
    now rewrite (proj1 (unmarshalError_cases s1) env Hne Hdec). }
  unfold Inline.Recv, Inline.processLines, Plain.Recv, Plain.processLines.
  rewrite Hfin. split.
  - rewrite (Inline_skip s 0%N rest Hpend Hls Hc).
    rewrite Inline_loop_pass,
      (Inline_pass_read_failed zero TrimSpace s1 _ false Hread), Herr.
    reflexivity.
  - rewrite (Plain_skip s 0%N rest Hpend Hls Hc).
    rewrite Plain_loop_pass,
      (Plain_pass_read_failed zero TrimSpace s1 _ Hread), Herr.
    reflexivity.
Qed.

End Further.

(** * Properties of chat messages and requests *)

Section ChatFacts.

Import Chat.

Lemma quoted_is_not_null (r : bytes) : lit dq ++ r ++ lit dq <> lit "null".
Proof. discriminate. Qed.

(** X12.  [FinishReason.MarshalJSON] never fails, and it keeps reasons
    apart except for the two spellings of no reason: two reasons have the
    same encoding only if they are equal or each is empty or [null], in
    which case the encoding is the bare word [null]; every other reason is
    encoded as itself between double quotes. *)
Theorem FinishReason_MarshalJSON_separates (r1 r2 : FinishReason) :
  snd (FinishReason_MarshalJSON r1) = None /\
  (fst (FinishReason_MarshalJSON r1) = lit "null" <->
   r1 = FinishReasonNull \/ r1 = lit "") /\
  (r1 <> FinishReasonNull -> r1 <> lit "" ->
   fst (FinishReason_MarshalJSON r1) = lit dq ++ r1 ++ lit dq) /\
  (fst (FinishReason_MarshalJSON r1) = fst (FinishReason_MarshalJSON r2) ->
   r1 = r2 \/
   ((r1 = FinishReasonNull \/ r1 = lit "") /\
    (r2 = FinishReasonNull \/ r2 = lit ""))).
Proof.
  assert (Hcase : forall r,
             (bytes_eqb r FinishReasonNull || bytes_eqb r (lit "") = true
              /\ (r = FinishReasonNull \/ r = lit ""))
             \/ (bytes_eqb r FinishReasonNull || bytes_eqb r (lit "") = false
                 /\ r <> FinishReasonNull /\ r <> lit "")).
  { intros r. destruct (bytes_eqb r FinishReasonNull) eqn:E1.
    - left. split; [reflexivity|]. left. now apply bytes_eqb_eq.
    - destruct (bytes_eqb r (lit "")) eqn:E2.
      + left. split; [reflexivity|]. right. now apply bytes_eqb_eq.
      + right. split; [reflexivity|]. split; now apply bytes_eqb_neq. }
  unfold FinishReason_MarshalJSON.
  destruct (Hcase r1) as [[-> H1] | [-> [N1 E1]]];
    destruct (Hcase r2) as [[-> H2] | [-> [N2 E2]]]; cbn [fst snd];
    (split; [reflexivity|]); (split; [|split]);
    try (split; [auto | reflexivity]);
    try (split; [intros H; now apply quoted_is_not_null in H | tauto]);
    try (intros N E; destruct H1; contradiction);
    try (intros _ _; reflexivity);
    auto.
  - intros H. symmetry in H. now apply quoted_is_not_null in H.
  - intros H. now apply quoted_is_not_null in H.
  - intros H. left. apply app_inv_head in H. now apply app_inv_tail in H.
Qed.

Section MarshalFacts.

Variable json_Marshal : message_view -> bytes * option chat_error.

(** X13.  [ChatCompletionMessage.MarshalJSON] fails with
    [ErrContentFieldsMisused], without encoding anything, exactly when
    [Content] is not empty and [MultiContent] is not nil, be it an empty
    slice.  Otherwise it encodes one view of the message, and the field
    that view leaves out holds nothing: it encodes [MultiContent] under
    the key [content] only when [Content] is empty, and [Content] only
    when [MultiContent] has no parts. *)
Theorem MarshalJSON_drops_no_content (m : ChatCompletionMessage) :
  (Content m <> lit "" /\ MultiContent m <> None /\
   MarshalJSON json_Marshal m = ([], Some ErrContentFieldsMisused)) \/
  (Content m = lit "" /\ (0 < len (MultiContent m))%nat /\
   MarshalJSON json_Marshal m = json_Marshal (MultiContentAsContent m)) \/
  (len (MultiContent m) = 0%nat /\
   (Content m = lit "" \/ MultiContent m = None) /\
   MarshalJSON json_Marshal m = json_Marshal (ContentAsContent m)).
Proof.
  unfold MarshalJSON.
  destruct (bytes_eqb (Content m) (lit "")) eqn:Hc;
    [apply bytes_eqb_eq in Hc | apply bytes_eqb_neq in Hc];
    destruct (MultiContent m) as [[|p ps]|] eqn:Hm; cbn;
    try (left; repeat split; auto; discriminate);
    try (right; left; repeat split; auto; lia);
    right; right; repeat split; auto.
Qed.

End MarshalFacts.

Section ClientFacts.

Variables ChatCompletionRequest ChatCompletionResponse : Type.
Variable Stream : ChatCompletionRequest -> bool.
Variable Model : ChatCompletionRequest -> gostring.
Variable zeroResponse : ChatCompletionResponse.
Variables Context_ Request Network : Type.
Variable checkEndpointSupportsModel : gostring -> gostring -> bool.
Variable fullURL : gostring -> gostring -> gostring.
Variable newRequest :
  Context_ -> gostring -> gostring -> ChatCompletionRequest ->
  Request * option chat_error.
Variable sendRequest :
  Request -> Network -> (ChatCompletionResponse * option chat_error) * Network.

#[local] Abbreviation Create :=
  (CreateChatCompletion Stream Model zeroResponse checkEndpointSupportsModel
     fullURL newRequest sendRequest).

(** X14.  [CreateChatCompletion] refuses a request with [Stream] set
    before it looks at the model, with
    [ErrChatCompletionStreamNotSupported]; it refuses a model the endpoint
    does not support with [ErrChatCompletionInvalidModel]; and whenever it
    refuses, or building the HTTP request fails, it returns the zero
    response with the error and sends nothing.  Only a request without
    [Stream], for a supported model, that could be built is sent, once,
    to the chat completions URL of the model, and the outcome of sending
    is the result. *)
Theorem CreateChatCompletion_guards (ctx : Context_)
    (request : ChatCompletionRequest) (net : Network) :
  let supported :=
    checkEndpointSupportsModel chatCompletionsSuffix (Model request) in
  let built :=
    newRequest ctx http_MethodPost
      (fullURL chatCompletionsSuffix (Model request)) request in
  (Stream request = true ->
   Create ctx request net
   = ((zeroResponse, Some ErrChatCompletionStreamNotSupported), net)) /\
  (Stream request = false -> supported = false ->
   Create ctx request net
   = ((zeroResponse, Some ErrChatCompletionInvalidModel), net)) /\
  (Stream request = false -> supported = true ->
   forall e, snd built = Some e ->
   Create ctx request net = ((zeroResponse, Some e), net)) /\
  (Stream request = false -> supported = true -> snd built = None ->
   Create ctx request net = sendRequest (fst built) net) /\
  (snd (Create ctx request net) <> net ->
   Stream request = false /\ supported = true /\ snd built = None).
Proof.
  intros supported built. unfold CreateChatCompletion.
  fold supported. fold built.
  destruct (Stream request); destruct supported;
    destruct built as [req [e|]]; cbn;
    repeat split; intros; try congruence; try discriminate; auto.
Qed.

End ClientFacts.

End ChatFacts.

(** * Closed examples of the further properties *)

Section MoreExamples.

Import Sample MoreSamples.

#[local] Abbreviation iRecv := (Inline.Recv zero TrimSpace_ascii).
#[local] Abbreviation pRecv := (Plain.Recv zero TrimSpace_ascii).

(** X2 at the line [data: {not valid json]. *)
Lemma error_comes_with_zero_response_witness :
  snd (fst (iRecv broken_event)) <> None /\
  fst (fst (iRecv broken_event)) = zero.
Proof.
  assert (H : snd (fst (iRecv broken_event)) <> None) by discriminate.
  exact (conj H (proj1 (error_comes_with_zero_response zero TrimSpace_ascii
                          broken_event) H)).
Defined.

(** X3 at a body that holds the closing line only. *)
Lemma finished_only_with_eof_witness :
  isFinished (snd (pRecv done_only)) = true /\
  fst (pRecv done_only) = (zero, Some io_EOF).
Proof.
  assert (H : isFinished (snd (pRecv done_only)) = true) by reflexivity.
  exact (conj H (proj2 (finished_only_with_eof zero TrimSpace_ascii
                          done_only) H)).
Defined.

(** X4 at an event followed by the closing line. *)
Lemma plain_success_is_a_decoded_line_witness :
  snd (fst (pRecv compliant)) = None /\
  exists raw,
    In raw (lines (pending (Reader compliant))) /\
    is_event TrimSpace_ascii raw = true /\
    payload TrimSpace_ascii raw <> doneMarker /\
    Unmarshal (Unmarshaler compliant) (payload TrimSpace_ascii raw)
    = (None, fst (fst (pRecv compliant))).
Proof.
  assert (H : snd (fst (pRecv compliant)) = None) by reflexivity.
  exact (conj H (plain_success_is_a_decoded_line zero TrimSpace_ascii
                   compliant H)).
Defined.

(** X5 at three blank lines with a limit of 2. *)
Lemma recv_reads_are_bounded_witness :
  isFinished three_blank = false /\
  (EmptyMessagesLimit three_blank + 1 < uint_modulus)%N /\
  (reads (Reader (snd (iRecv three_blank)))
   <= reads (Reader three_blank)
      + N.to_nat (EmptyMessagesLimit three_blank) + 1)%nat.
Proof.
  assert (H1 : isFinished three_blank = false) by reflexivity.
  assert (H2 : (EmptyMessagesLimit three_blank + 1 < uint_modulus)%N)
    by reflexivity.
  destruct (recv_reads_are_bounded zero TrimSpace_ascii three_blank H1 H2)
    as [[_ Hi] _].
  exact (conj H1 (conj H2 Hi)).
Defined.

(** X6 at the closing line without its line feed, over two calls. *)
Lemma unterminated_rest_is_dropped_witness :
  isFinished unterminated_done = false /\
  cut nl (pending (Reader unterminated_done)) = None /\
  calls iRecv 2 unterminated_done
  = (repeat (zero, Some io_EOF) 2, drained_by unterminated_done 2).
Proof.
  assert (H1 : isFinished unterminated_done = false) by reflexivity.
  assert (H2 : cut nl (pending (Reader unterminated_done)) = None)
    by reflexivity.
  destruct (unterminated_rest_is_dropped zero TrimSpace_ascii
              unterminated_done 1 H1 H2) as [Hi _].
  exact (conj H1 (conj H2 Hi)).
Defined.

(** X7 at two blank lines before an event, with a limit of 2. *)
Lemma lines_within_limit_are_skipped_witness :
  isFinished blanks_then_event = false /\
  pending (Reader blanks_then_event)
  = List.concat [lit lf; lit lf] ++ lit event_text ++ lit done_text /\
  Forall (non_payload_line TrimSpace_ascii) [lit lf; lit lf] /\
  (N.of_nat (List.length [lit lf; lit lf])
   <= EmptyMessagesLimit blanks_then_event)%N /\
  (EmptyMessagesLimit blanks_then_event < uint_modulus)%N /\
  event_line TrimSpace_ascii (Unmarshaler blanks_then_event)
    (lit event_text) event_value /\
  fst (pRecv blanks_then_event) = (event_value, None) /\
  fst (iRecv blanks_then_event) = (event_value, None).
Proof.
  assert (H1 : isFinished blanks_then_event = false) by reflexivity.
  assert (H2 : pending (Reader blanks_then_event)
               = List.concat [lit lf; lit lf] ++ lit event_text
                 ++ lit done_text) by reflexivity.
  assert (H3 : Forall (non_payload_line TrimSpace_ascii) [lit lf; lit lf])
    by (repeat constructor).
  assert (H4 : (N.of_nat (List.length [lit lf; lit lf])
                <= EmptyMessagesLimit blanks_then_event)%N)
    by (apply N.leb_le; reflexivity).
  assert (H5 : (EmptyMessagesLimit blanks_then_event < uint_modulus)%N)
    by reflexivity.
  assert (H6 : event_line TrimSpace_ascii (Unmarshaler blanks_then_event)
                 (lit event_text) event_value)
    by (repeat split; reflexivity).
  destruct (@lines_within_limit_are_skipped T APIError zero TrimSpace_ascii
              blanks_then_event [lit lf; lit lf] (lit event_text) event_value
              (lit done_text) H1 H2 H3 H4 H5 H6)
    as [Hp Hi].
  rewrite Hp, (Hi eq_refl).
  exact (conj H1 (conj H2 (conj H3 (conj H4 (conj H5 (conj H6
           (conj eq_refl eq_refl))))))).
Defined.

(** X8 at three blank lines with a limit of 2. *)
Lemma lines_beyond_limit_fail_witness :
  isFinished three_blank = false /\
  pending (Reader three_blank)
  = List.concat [lit lf; lit lf; lit lf] ++ lit done_text /\
  Forall (non_payload_line TrimSpace_ascii) [lit lf; lit lf; lit lf] /\
  List.length [lit lf; lit lf; lit lf]
  = S (N.to_nat (EmptyMessagesLimit three_blank)) /\
  (EmptyMessagesLimit three_blank + 1 < uint_modulus)%N /\
  pRecv three_blank
  = ((zero, Some ErrTooManyEmptyStreamMessages),
     skipped TrimSpace_ascii three_blank [lit lf; lit lf; lit lf]
       (lit done_text)).
Proof.
  assert (H1 : isFinished three_blank = false) by reflexivity.
  assert (H2 : pending (Reader three_blank)
               = List.concat [lit lf; lit lf; lit lf] ++ lit done_text)
    by reflexivity.
  assert (H3 : Forall (non_payload_line TrimSpace_ascii)
                 [lit lf; lit lf; lit lf]) by (repeat constructor).
  assert (H4 : List.length [lit lf; lit lf; lit lf]
               = S (N.to_nat (EmptyMessagesLimit three_blank)))
    by reflexivity.
  assert (H5 : (EmptyMessagesLimit three_blank + 1 < uint_modulus)%N)
    by reflexivity.
  destruct (@lines_beyond_limit_fail T APIError zero TrimSpace_ascii
              three_blank [lit lf; lit lf; lit lf] (lit done_text)
              H1 H2 H3 H4 H5) as [_ Hp].
  exact (conj H1 (conj H2 (conj H3 (conj H4 (conj H5 Hp))))).
Defined.

(** X9 at three blank lines before an event, with the largest limit. *)
Lemma largest_limit_never_fails_witness :
  isFinished largest_limit = false /\
  pending (Reader largest_limit)
  = List.concat [lit lf; lit lf; lit lf] ++ lit event_text ++ [] /\
  Forall (non_payload_line TrimSpace_ascii) [lit lf; lit lf; lit lf] /\
  EmptyMessagesLimit largest_limit = (uint_modulus - 1)%N /\
  event_line TrimSpace_ascii (Unmarshaler largest_limit)
    (lit event_text) event_value /\
  fst (pRecv largest_limit) = (event_value, None).
Proof.
  assert (H1 : isFinished largest_limit = false) by reflexivity.
  assert (H2 : pending (Reader largest_limit)
               = List.concat [lit lf; lit lf; lit lf] ++ lit event_text ++ [])
    by reflexivity.
  assert (H3 : Forall (non_payload_line TrimSpace_ascii)
                 [lit lf; lit lf; lit lf]) by (repeat constructor).
  assert (H4 : EmptyMessagesLimit largest_limit = (uint_modulus - 1)%N)
    by reflexivity.
  assert (H5 : event_line TrimSpace_ascii (Unmarshaler largest_limit)
                 (lit event_text) event_value)
    by (repeat split; reflexivity).
  destruct (@largest_limit_never_fails T APIError zero TrimSpace_ascii
              largest_limit [lit lf; lit lf; lit lf] (lit event_text)
              event_value [] H1 H2 H3 H4 H5) as [Hp _].
  rewrite Hp.
  exact (conj H1 (conj H2 (conj H3 (conj H4 (conj H5 eq_refl))))).
Defined.

(** X10 at a blank line before each of two events and before the closing
    line, with a limit of 1, over three calls. *)
Lemma roundtrip_with_lines_between_witness :
  isFinished one_blank_each = false /\
  (EmptyMessagesLimit one_blank_each < uint_modulus)%N /\
  pending (Reader one_blank_each)
  = List.concat (map (@block_bytes T) [blank_and_event; blank_and_event])
    ++ List.concat [lit lf] ++ lit done_text ++ [] /\
  Forall (block_within TrimSpace_ascii (Unmarshaler one_blank_each)
            (EmptyMessagesLimit one_blank_each))
    [blank_and_event; blank_and_event] /\
  Forall (non_payload_line TrimSpace_ascii) [lit lf] /\
  (N.of_nat (List.length [lit lf]) <= EmptyMessagesLimit one_blank_each)%N /\
  done_line TrimSpace_ascii (lit done_text) /\
  fst (calls pRecv 3 one_blank_each)
  = [(event_value, None); (event_value, None); (zero, Some io_EOF)] /\
  isFinished (snd (calls pRecv 3 one_blank_each)) = true.
Proof.
  assert (H1 : isFinished one_blank_each = false) by reflexivity.
  assert (H2 : (EmptyMessagesLimit one_blank_each < uint_modulus)%N)
    by reflexivity.
  assert (H3 : pending (Reader one_blank_each)
               = List.concat (map (@block_bytes T)
                                [blank_and_event; blank_and_event])
                 ++ List.concat [lit lf] ++ lit done_text ++ [])
    by reflexivity.
  assert (Hb : block_within TrimSpace_ascii (Unmarshaler one_blank_each)
                 (EmptyMessagesLimit one_blank_each) blank_and_event).
  { split; [repeat constructor|].
    split; [apply N.leb_le; reflexivity | repeat split; reflexivity]. }
  assert (H4 : Forall (block_within TrimSpace_ascii
                         (Unmarshaler one_blank_each)
                         (EmptyMessagesLimit one_blank_each))
                 [blank_and_event; blank_and_event])
    by (repeat (constructor; [exact Hb|]); constructor).
  assert (H5 : Forall (non_payload_line TrimSpace_ascii) [lit lf])
    by (repeat constructor).
  assert (H6 : (N.of_nat (List.length [lit lf])
                <= EmptyMessagesLimit one_blank_each)%N)
    by (apply N.leb_le; reflexivity).
  assert (H7 : done_line TrimSpace_ascii (lit done_text))
    by (repeat split; reflexivity).
  destruct (@roundtrip_with_lines_between T APIError zero TrimSpace_ascii
              one_blank_each [blank_and_event; blank_and_event] [lit lf]
              (lit done_text) [] 3 H1 H2 H3 H4 H5 H6 H7) as [[Hres Hflag] _].
  exact (conj H1 (conj H2 (conj H3 (conj H4 (conj H5 (conj H6 (conj H7
           (conj Hres Hflag)))))))).
Defined.

(** X11 at an error body without the prefix, on a body that then closes. *)
Lemma unprefixed_error_body_is_reported_witness :
  isFinished server_error = false /\
  pending (Reader server_error)
  = List.concat [lit server_error_text] ++ [] /\
  cut nl [] = None /\
  Forall (non_payload_line TrimSpace_ascii) [lit server_error_text] /\
  (N.of_nat (List.length [lit server_error_text])
   <= EmptyMessagesLimit server_error)%N /\
  (EmptyMessagesLimit server_error < uint_modulus)%N /\
  ErrAccumulator server_error
  ++ List.concat (map TrimSpace_ascii [lit server_error_text]) <> [] /\
  Unmarshal_errResp (Unmarshaler server_error)
    (ErrAccumulator server_error
     ++ List.concat (map TrimSpace_ascii [lit server_error_text]))
  = (None, Some {| Error := Some error_detail |}) /\
  iRecv server_error
  = ((zero, Some (Errorf_w (Some error_detail))),
     drained_by (skipped TrimSpace_ascii server_error
                   [lit server_error_text] []) 1).
Proof.
  assert (H1 : isFinished server_error = false) by reflexivity.
  assert (H2 : pending (Reader server_error)
               = List.concat [lit server_error_text] ++ []) by reflexivity.
  assert (H3 : cut nl [] = None) by reflexivity.
  assert (H4 : Forall (non_payload_line TrimSpace_ascii)
                 [lit server_error_text]) by (repeat constructor).
  assert (H5 : (N.of_nat (List.length [lit server_error_text])
                <= EmptyMessagesLimit server_error)%N)
    by (apply N.leb_le; reflexivity).
  assert (H6 : (EmptyMessagesLimit server_error < uint_modulus)%N)
    by reflexivity.
  assert (H7 : ErrAccumulator server_error
               ++ List.concat (map TrimSpace_ascii [lit server_error_text])
               <> []) by discriminate.
  assert (H8 : Unmarshal_errResp (Unmarshaler server_error)
                 (ErrAccumulator server_error
                  ++ List.concat (map TrimSpace_ascii
                                    [lit server_error_text]))
               = (None, Some {| Error := Some error_detail |}))
    by reflexivity.
  destruct (@unprefixed_error_body_is_reported T APIError zero
              TrimSpace_ascii server_error [lit server_error_text] []
              {| Error := Some error_detail |} H1 H2 H3 H4 H5 H6 H7 H8)
    as [Hi _].
  exact (conj H1 (conj H2 (conj H3 (conj H4 (conj H5 (conj H6 (conj H7
           (conj H8 Hi)))))))).
Defined.

(** X12 at the empty reason and [null], which share the encoding
    [null]. *)
Lemma FinishReason_MarshalJSON_separates_witness :
  fst (Chat.FinishReason_MarshalJSON (lit ""))
  = fst (Chat.FinishReason_MarshalJSON Chat.FinishReasonNull) /\
  (lit "" = Chat.FinishReasonNull \/
   ((lit "" = Chat.FinishReasonNull \/ lit "" = lit "") /\
    (Chat.FinishReasonNull = Chat.FinishReasonNull
     \/ Chat.FinishReasonNull = lit ""))).
Proof.
  assert (H : fst (Chat.FinishReason_MarshalJSON (lit ""))
              = fst (Chat.FinishReason_MarshalJSON Chat.FinishReasonNull))
    by reflexivity.
  destruct (FinishReason_MarshalJSON_separates
              (lit "") Chat.FinishReasonNull) as (_ & _ & _ & Hsep).
  exact (conj H (Hsep H)).
Defined.

(** X14 at a streaming request for a model the sample client does not
    support: the stream check comes first and nothing is sent. *)
Lemma CreateChatCompletion_guards_witness :
  fst (true, lit "davinci") = true /\
  sample_create tt (true, lit "davinci") 0%nat
  = (([], Some Chat.ErrChatCompletionStreamNotSupported), 0%nat).
Proof.
  assert (H : fst (true, lit "davinci") = true) by reflexivity.
  destruct (CreateChatCompletion_guards fst snd ([] : bytes) supports
              (fun suffix model => model ++ suffix) build send tt
              (true, lit "davinci") 0%nat) as [Hstream _].
  exact (conj H (Hstream H)).
Defined.

End MoreExamples.
